(** * The graph canvas controller and the API request helpers

    A shallow embedding of [src/components/graph/graph.tsx] (the [Flow]
    component: edge ids, connection inference, the validity predicate, the
    initial canvas, the save protocol) and of the API configuration module
    ([getManageApiUrl], [getRunApiUrl], [makeApiRequestInternal] and its two
    public wrappers), followed by the properties proved about them. *)

From Stdlib Require Import ZArith NArith Ascii Floats.
From stdpp Require Import strings gmap list.

(** ** JavaScript values *)

Module Js.

(** A JavaScript string is a finite sequence of UTF-16 code units. *)
Abbreviation str := (list N).

(** A string literal of the source, as its code units. *)
Definition lit (s : string) : str :=
  (fun c => Ascii.N_of_ascii c) <$> String.list_ascii_of_string s.

(** Truthiness of a [string | null | undefined]: only a non-empty string is
    truthy. *)
Definition truthy (s : option str) : bool :=
  match s with
  | Some (_ :: _) => true
  | _ => false
  end.

(** [a < b] on strings: lexicographic on code units, a proper prefix first. *)
Fixpoint str_ltb (a b : str) : bool :=
  match a, b with
  | _, [] => false
  | [], _ :: _ => true
  | x :: a', y :: b' =>
      if (x <? y)%N then true
      else if (y <? x)%N then false
      else str_ltb a' b'
  end.

(** The same order as a relation. *)
Inductive str_lt : str -> str -> Prop :=
| str_lt_prefix y b : str_lt [] (y :: b)
| str_lt_head x y a b : (x < y)%N -> str_lt (x :: a) (y :: b)
| str_lt_tail x a b : str_lt a b -> str_lt (x :: a) (x :: b).

(** [[a, b].sort()] with no comparator: elements are ordered by [<] on
    strings and the sort is stable, so the pair is swapped exactly when the
    second is smaller than the first. *)
Definition sort2 (a b : str) : str * str :=
  if str_ltb b a then (b, a) else (a, b).

Fixpoint starts_with (p s : str) : bool :=
  match p, s with
  | [], _ => true
  | _ :: _, [] => false
  | x :: p', y :: s' => bool_decide (x = y) && starts_with p' s'
  end.

(** [s.includes(p)] *)
Fixpoint includes (s p : str) : bool :=
  starts_with p s ||
  match s with
  | [] => false
  | _ :: s' => includes s' p
  end.

#[local] Set Warnings "-register-all".

(** A value produced by [JSON.parse] / [response.json()]. *)
Inductive json :=
| JNull
| JBool (b : bool)
| JNum (x : float)
| JStr (s : str)
| JArr (items : list json)
| JObj (members : list (str * json)).

(** A JavaScript value as far as the request helper meets one: [undefined]
    or a JSON value. *)
Abbreviation value := (option json).

(** ToBoolean. *)
Definition to_boolean (v : value) : bool :=
  match v with
  | None => false
  | Some JNull => false
  | Some (JBool b) => b
  | Some (JNum x) => negb (PrimFloat.eqb x 0 || negb (PrimFloat.eqb x x))
  | Some (JStr s) => truthy (Some s)
  | Some (JArr _) => true
  | Some (JObj _) => true
  end.

(** The last member with key [k] of an object literal's member list (a later
    duplicate key overwrites an earlier one). *)
Fixpoint member (k : str) (ms : list (str * json)) : value :=
  match ms with
  | [] => None
  | (k', v) :: ms' =>
      match member k ms' with
      | Some w => Some w
      | None => if bool_decide (k' = k) then Some v else None
      end
  end.

(** *** Members of plain objects *)

(** The names of the members of [Object.prototype], which every object
    made by an object literal or by [JSON.parse] inherits. *)
Definition Object_prototype_members : list str :=
  [ lit "constructor"; lit "__defineGetter__"; lit "__defineSetter__";
    lit "hasOwnProperty"; lit "__lookupGetter__"; lit "__lookupSetter__";
    lit "isPrototypeOf"; lit "propertyIsEnumerable"; lit "toString";
    lit "valueOf"; lit "__proto__"; lit "toLocaleString" ].

(** What [obj[key]] finds in such an object: an own member, else the
    member of [Object.prototype] of that name (a function, or for
    [__proto__] the prototype itself), else [undefined]. *)
Inductive Property (A : Type) :=
| Own (a : A)
| Inherited (key : str)
| Undefined.
Arguments Own {A} a.
Arguments Inherited {A} key.
Arguments Undefined {A}.

(** [obj[key]] for the object whose own members are [obj]. *)
Definition get_property {A} (obj : gmap str A) (key : str) : Property A :=
  match obj !! key with
  | Some a => Own a
  | None =>
      if bool_decide (key ∈ Object_prototype_members) then Inherited key
      else Undefined
  end.

(** The [name] of the member of [Object.prototype] called [key]: the
    constructor is the function [Object], [__proto__] reads as the prototype,
    which has no [name], and every other member is a function named as its
    key. *)
Definition prototype_member_name (key : str) : option str :=
  if bool_decide (key = lit "constructor") then Some (lit "Object")
  else if bool_decide (key = lit "__proto__") then None
  else Some key.

End Js.

(** ** Thrown values *)

Module Errors.
Import Js.

(** Modelled from the spec: the [ApiError] class of [../types/errors], a
    typed error built by [new ApiError(error, status)] and carrying the
    [{code, message}] payload it was given together with the HTTP status. *)
Record ApiError := {
  error : value;
  status : Z
}.

(** What a [throw] raises or a promise rejects with: an [ApiError], any
    other instance of [Error] (with its [message]), or a value that is no
    [Error] at all. *)
Inductive Thrown :=
| ThrownApiError (e : ApiError)
| ThrownError (message : str)
| ThrownValue (v : value).

End Errors.

(** ** graph.tsx *)

Module Graph.
Import Js Errors.

(** The handle ids exported by [./configuration/node-types]. *)
Class NodeTypeIds := {
  agentNodeSourceHandleId : str;
  agentNodeTargetHandleId : str;
  externalAgentNodeTargetHandleId : str;
  mcpNodeHandleId : str
}.

Inductive NodeType := Agent | ExternalAgent | MCP.

Inductive EdgeType := A2A | A2AExternal | SelfLoop.

#[global] Instance NodeType_eq_dec : EqDecision NodeType.
Proof. solve_decision. Defined.

#[global] Instance EdgeType_eq_dec : EqDecision EdgeType.
Proof. solve_decision. Defined.

Record XYPosition := { x : float; y : float }.

(** The [data] payload of a node: the members the controller reads or
    writes, and the remaining members, which it only copies. A member that
    is absent, [undefined] or [null] is [None]; the controller tests these
    members for truthiness only. *)
Record NodeData := {
  name : option str;
  isDefault : option bool;
  toolId : option str;
  agentId : option str;
  relationshipId : option str;
  imageUrl : option str;
  provider : option str;
  rest : gmap str json
}.

Record Node := {
  n_id : str;
  n_type : option NodeType;
  n_position : XYPosition;
  n_data : NodeData;
  n_selected : option bool;
  n_deletable : option bool
}.

Record Relationships := {
  transferTargetToSource : bool;
  transferSourceToTarget : bool;
  delegateTargetToSource : bool;
  delegateSourceToTarget : bool
}.

Record EdgeData := { relationships : Relationships }.

(** [Connection] of the canvas library. *)
Record Connection := {
  source : str;
  target : str;
  sourceHandle : option str;
  targetHandle : option str
}.

(** An edge; [e_type = None] is an edge object with no [type] member, which
    the canvas draws with [defaultEdgeOptions], that is as a ['default']
    edge; [e_data = None] is an edge with no [data] member. *)
Record Edge := {
  e_id : str;
  e_source : str;
  e_target : str;
  e_sourceHandle : option str;
  e_targetHandle : option str;
  e_type : option EdgeType;
  e_selected : option bool;
  e_data : option EdgeData
}.

(** [h === c] for a handle [h : string | null] and a string constant [c]. *)
Definition handle_is (h : option str) (c : str) : bool :=
  bool_decide (h = Some c).

(** [getEdgeId] (lines 71-74). *)
Definition getEdgeId (a b : str) : str :=
  let '(low, high) := sort2 a b in
  lit "edge-" ++ low ++ lit "-" ++ high.

(** What [onConnectWrapped] does to its surroundings, in program order. *)
Inductive ConnectEffect :=
| MarkUnsaved
| UpdateNodeData (nodeId : str) (data : NodeData)
| ExecuteAddPreparedEdge (edge : Edge) (deselectOtherEdgesIfA2A : bool).

(** The relationships a new self-loop or agent-to-agent edge starts with. *)
Definition transferSourceToTargetOnly : Relationships :=
  {| transferTargetToSource := false;
     transferSourceToTarget := true;
     delegateTargetToSource := false;
     delegateSourceToTarget := false |}.

(** The relationships a new edge to an external agent starts with. *)
Definition delegateSourceToTargetOnly : Relationships :=
  {| transferTargetToSource := false;
     transferSourceToTarget := false;
     delegateTargetToSource := false;
     delegateSourceToTarget := true |}.

(** [h] is one of the two agent-control handles. *)
Definition agent_handle `{NodeTypeIds} (h : option str) : Prop :=
  h = Some agentNodeSourceHandleId \/ h = Some agentNodeTargetHandleId.

Section Connect.
Context `{NodeTypeIds}.

(** The value of [newEdge] when [onConnectWrapped] (lines 285-363) hands it
    to the command manager: [{ id, ...params }], then the members the branch
    taken spreads over it. *)
Definition onConnectWrapped_newEdge (params : Connection) : Edge :=
  let isSelfLoop := bool_decide (source params = target params) in
  let id :=
    if isSelfLoop then lit "edge-self-" ++ source params
    else getEdgeId (source params) (target params) in
  let newEdge :=
    {| e_id := id;
       e_source := source params;
       e_target := target params;
       e_sourceHandle := sourceHandle params;
       e_targetHandle := targetHandle params;
       e_type := None;
       e_selected := None;
       e_data := None |} in
  let sourceHandle := sourceHandle params in
  let targetHandle := targetHandle params in
  if isSelfLoop then
    {| e_id := e_id newEdge;
       e_source := e_source newEdge;
       e_target := e_target newEdge;
       e_sourceHandle := e_sourceHandle newEdge;
       e_targetHandle := e_targetHandle newEdge;
       e_type := Some SelfLoop;
       e_selected := Some true;
       e_data := Some {| relationships :=
         {| transferTargetToSource := false;
            transferSourceToTarget := true;
            delegateTargetToSource := false;
            delegateSourceToTarget := false |} |} |}
  else if (handle_is sourceHandle agentNodeSourceHandleId
           || handle_is sourceHandle agentNodeTargetHandleId)
          && (handle_is targetHandle agentNodeTargetHandleId
              || handle_is targetHandle agentNodeSourceHandleId) then
    {| e_id := e_id newEdge;
       e_source := e_source newEdge;
       e_target := e_target newEdge;
       e_sourceHandle := e_sourceHandle newEdge;
       e_targetHandle := e_targetHandle newEdge;
       e_type := Some A2A;
       e_selected := Some true;
       e_data := Some {| relationships :=
         {| transferTargetToSource := false;
            transferSourceToTarget := true;
            delegateTargetToSource := false;
            delegateSourceToTarget := false |} |} |}
  else if (handle_is sourceHandle agentNodeSourceHandleId
           || handle_is sourceHandle agentNodeTargetHandleId)
          && handle_is targetHandle externalAgentNodeTargetHandleId then
    {| e_id := e_id newEdge;
       e_source := e_source newEdge;
       e_target := e_target newEdge;
       e_sourceHandle := e_sourceHandle newEdge;
       e_targetHandle := e_targetHandle newEdge;
       e_type := Some A2AExternal;
       e_selected := e_selected newEdge;
       e_data := Some {| relationships :=
         {| transferTargetToSource := false;
            transferSourceToTarget := false;
            delegateTargetToSource := false;
            delegateSourceToTarget := true |} |} |}
  else newEdge.

(** [nodes.find((n) => n.id === id)] *)
Definition find_node (nodes : list Node) (id : str) : option Node :=
  List.find (fun n => bool_decide (n_id n = id)) nodes.

(** [onConnectWrapped]: [markUnsaved()], the update of the target MCP
    node's [agentId] when an agent handle is connected to the MCP handle,
    and the command executed on the next animation frame. *)
Definition onConnectWrapped (nodes : list Node) (params : Connection)
  : list ConnectEffect :=
  let newEdge := onConnectWrapped_newEdge params in
  let sourceHandle := sourceHandle params in
  let targetHandle := targetHandle params in
  let updates : list ConnectEffect :=
    if handle_is targetHandle mcpNodeHandleId
       && (handle_is sourceHandle agentNodeSourceHandleId
           || handle_is sourceHandle agentNodeTargetHandleId)
    then
      match find_node nodes (target params) with
      | Some targetNode =>
          if bool_decide (n_type targetNode = Some MCP) then
            let d := n_data targetNode in
            [UpdateNodeData (n_id targetNode)
               {| name := name d;
                  isDefault := isDefault d;
                  toolId := toolId d;
                  agentId := Some (source params);
                  relationshipId := None;
                  imageUrl := imageUrl d;
                  provider := provider d;
                  rest := rest d |}]
          else []
      | None => []
      end
    else [] in
  MarkUnsaved :: updates ++ [ExecuteAddPreparedEdge newEdge true].

(** [isValidConnection] (lines 365-371). *)
Definition isValidConnection (sourceHandle targetHandle : option str) : bool :=
  if handle_is sourceHandle mcpNodeHandleId
     && handle_is targetHandle mcpNodeHandleId
  then false
  else true.

End Connect.

(** *** The initial canvas *)

Record MCPTool := {
  t_name : str;
  t_imageUrl : option str
}.

(** What [toolLookup[toolId]] is when it is truthy: a tool of the lookup,
    or, for a [toolId] that the lookup does not hold, the member of
    [Object.prototype] of that name. *)
Inductive ToolValue :=
| Tool (tool : MCPTool)
| PrototypeMember (key : str).

(** [tool.name] and [tool.imageUrl] of such a value. *)
Definition tool_name (tool : ToolValue) : option str :=
  match tool with
  | Tool t => Some (t_name t)
  | PrototypeMember key => prototype_member_name key
  end.

Definition tool_imageUrl (tool : ToolValue) : option str :=
  match tool with
  | Tool t => t_imageUrl t
  | PrototypeMember _ => None
  end.

(** One entry of an agent's [canUse] list. *)
Record CanUseItem := {
  cu_toolId : str;
  agentToolRelationId : option str;
  toolSelection : option (list str);
  cu_headers : option (gmap str str)
}.

(** An agent of a graph definition; [canUse = None] is an agent with no
    [canUse] member (an external agent) or a null one. *)
Record AgentDefinition := {
  canUse : option (list CanUseItem)
}.

(** The backend's graph definition, as far as the controller reads it. *)
Record GraphDefinition := {
  g_id : option str;
  agents : gmap str AgentDefinition
}.

(** The outcome of [saveGraph]. *)
Inductive SaveResult (RawError : Type) :=
| SaveSuccess (data : option GraphDefinition)
| SaveFailure (error : RawError).
Arguments SaveSuccess {RawError} data.
Arguments SaveFailure {RawError} error.

(** What [graph.tsx] imports from the domain model, the save service, the
    error parser and the utilities: their types and their functions. A call
    that can throw returns [inl] of what it throws. *)
Class Domain := {
  Metadata : Type;
  DataComponentLookup : Type;
  ArtifactComponentLookup : Type;
  AgentToolConfigLookup : Type;
  RawError : Type;
  ErrorSummary : Type;
  deserializeGraphData : GraphDefinition -> Thrown + list Node * list Edge;
  getToolTypeAndName_type : ToolValue -> Thrown + option str;
  detectOrphanedToolsAndGetWarning :
    list Node -> AgentToolConfigLookup -> gmap str MCPTool ->
    Thrown + option str;
  serializeGraphData :
    list Node -> list Edge -> Metadata -> DataComponentLookup ->
    ArtifactComponentLookup -> AgentToolConfigLookup ->
    Thrown + GraphDefinition;
  saveGraph :
    str -> str -> GraphDefinition -> option str ->
    Thrown + SaveResult RawError;
  parseGraphValidationErrors : RawError -> Thrown + ErrorSummary;
  getErrorSummaryMessage : ErrorSummary -> Thrown + option str
}.

(** Modelled from the spec: [initialEdges] of [./configuration/edge-types],
    the edges of the empty default graph (a single default agent node, no
    edges). *)
Definition initialEdges : list Edge := [].

(** [initialNodes]; [nanoid] is the id that [nanoid()] returned. *)
Definition initialNodes (nanoid : str) : list Node :=
  [ {| n_id := nanoid;
       n_type := Some Agent;
       n_position := {| x := 0; y := 0 |};
       n_data :=
         {| name := Some (lit "");
            isDefault := Some true;
            toolId := None;
            agentId := None;
            relationshipId := None;
            imageUrl := None;
            provider := None;
            rest := ∅ |};
       n_selected := None;
       n_deletable := Some false |} ].

Definition with_relationshipId (node : Node) (r : option str) : Node :=
  let d := n_data node in
  {| n_id := n_id node;
     n_type := n_type node;
     n_position := n_position node;
     n_data :=
       {| name := name d;
          isDefault := isDefault d;
          toolId := toolId d;
          agentId := agentId d;
          relationshipId := r;
          imageUrl := imageUrl d;
          provider := provider d;
          rest := rest d |};
     n_selected := n_selected node;
     n_deletable := n_deletable node |}.

(** A node the reconciliation still owes a relationship id: an MCP node
    whose data carries an agent id and a tool id and no relationship id. *)
Definition awaits_relationship (node : Node) : bool :=
  bool_decide (n_type node = Some MCP)
  && truthy (agentId (n_data node))
  && truthy (toolId (n_data node))
  && negb (truthy (relationshipId (n_data node))).

(** The node has been given a relationship id. *)
Definition has_relationship (node : Node) (r : str) : Prop :=
  relationshipId (n_data node) = Some r /\ r <> [].

(** [r] is a relationship id that the response lists, in the [canUse] list
    of the node's agent, for the node's tool. *)
Definition candidate (data : GraphDefinition) (node : Node) (r : str)
  : Prop :=
  exists agentId' toolId' agent tools tool,
    agentId (n_data node) = Some agentId'
    /\ toolId (n_data node) = Some toolId'
    /\ agents data !! agentId' = Some agent
    /\ canUse agent = Some tools
    /\ tool ∈ tools
    /\ cu_toolId tool = toolId'
    /\ agentToolRelationId tool = Some r
    /\ r <> [].



Section Flow.
Context `{NodeTypeIds} `{Domain}.

(** The callback of [enrichNodes] (lines 113-137): an MCP node whose data
    has a [toolId] for which [toolLookup[toolId]] is truthy takes the name,
    image and provider of what was found. [toolLookup] holds the own members
    of the lookup, a plain object; [toolId = None] is data with no [toolId]
    member. [getToolTypeAndName(tool).type] can throw, and the callback then
    throws. *)
Definition enrichNode (toolLookup : gmap str MCPTool) (node : Node)
  : Thrown + Node :=
  if bool_decide (n_type node = Some MCP) then
    match toolId (n_data node) with
    | Some tid =>
        let tool :=
          match get_property toolLookup tid with
          | Own t => Some (Tool t)
          | Inherited key => Some (PrototypeMember key)
          | Undefined => None
          end in
        match tool with
        | Some tool =>
            match getToolTypeAndName_type tool with
            | inl reason => inl reason
            | inr provider =>
                let d := n_data node in
                inr {| n_id := n_id node;
                       n_type := n_type node;
                       n_position := n_position node;
                       n_data :=
                         {| name := tool_name tool;
                            isDefault := isDefault d;
                            toolId := toolId d;
                            agentId := agentId d;
                            relationshipId := relationshipId d;
                            imageUrl := tool_imageUrl tool;
                            provider := provider;
                            rest := rest d |};
                       n_selected := n_selected node;
                       n_deletable := n_deletable node |}
            end
        | None => inr node
        end
    | None => inr node
    end
  else inr node.

(** [nodes.map(...)]: the callback runs on the nodes in order, and the first
    throw ends the call. *)
Fixpoint enrichNodes (toolLookup : gmap str MCPTool) (nodes : list Node)
  : Thrown + list Node :=
  match nodes with
  | [] => inr []
  | node :: nodes' =>
      match enrichNode toolLookup node with
      | inl reason => inl reason
      | inr node' =>
          match enrichNodes toolLookup nodes' with
          | inl reason => inl reason
          | inr out => inr (node' :: out)
          end
      end
  end.

(** The [useMemo] that computes [graphNodes] and [graphEdges]. *)
Definition graphNodesAndEdges (graph : option GraphDefinition)
    (toolLookup : gmap str MCPTool) (nanoid : str)
  : Thrown + list Node * list Edge :=
  let result :=
    match graph with
    | Some g => deserializeGraphData g
    | None => inr (initialNodes nanoid, initialEdges)
    end in
  match result with
  | inl reason => inl reason
  | inr result =>
      match enrichNodes toolLookup (fst result) with
      | inl reason => inl reason
      | inr nodes => inr (nodes, snd result)
      end
  end.

(** *** Relationship-id reconciliation *)

(** The predicate of the [find] over an agent's [canUse] list. *)
Definition matches (toolId : str) (processed : gset str) (tool : CanUseItem)
  : bool :=
  bool_decide (cu_toolId tool = toolId)
  && truthy (agentToolRelationId tool)
  && negb (match agentToolRelationId tool with
           | Some r => bool_decide (r ∈ processed)
           | None => false
           end).

(** The body of the updater's [map] callback for one node, with the set
    [processedRelationships] threaded through. [agents data] holds the own
    members of [res.data.agents], a plain object. [None] is the [TypeError]
    of ['canUse' in res.data.agents[agentId]] when that member is
    [undefined]; when the response has no such agent but [agentId] names a
    member of [Object.prototype], the member is an object without [canUse]
    and the node is returned as it is. *)
Definition reconcileNode (data : GraphDefinition) (processed : gset str)
    (node : Node) : option (Node * gset str) :=
  if bool_decide (n_type node = Some MCP) then
    if truthy (agentId (n_data node)) && truthy (toolId (n_data node)) then
      if truthy (relationshipId (n_data node)) then Some (node, processed)
      else
        match agentId (n_data node), toolId (n_data node) with
        | Some agentId, Some toolId =>
            match get_property (agents data) agentId with
            | Undefined => None
            | Inherited _ => Some (node, processed)
            | Own agent =>
                match canUse agent with
                | Some tools =>
                    match List.find (matches toolId processed) tools with
                    | Some matchingRelationship =>
                        if truthy (agentToolRelationId matchingRelationship)
                        then
                          match agentToolRelationId matchingRelationship with
                          | Some r =>
                              Some (with_relationshipId node (Some r),
                                    {[ r ]} ∪ processed)
                          | None => Some (node, processed)
                          end
                        else Some (node, processed)
                    | None => Some (node, processed)
                    end
                | None => Some (node, processed)
                end
            end
        | _, _ => Some (node, processed)
        end
    else Some (node, processed)
  else Some (node, processed).

(** [currentNodes.map(...)] from a given state of [processedRelationships]. *)
Fixpoint reconcileFrom (data : GraphDefinition) (processed : gset str)
    (nodes : list Node) : option (list Node) :=
  match nodes with
  | [] => Some []
  | node :: nodes' =>
      match reconcileNode data processed node with
      | None => None
      | Some (node', processed') =>
          match reconcileFrom data processed' nodes' with
          | None => None
          | Some out => Some (node' :: out)
          end
      end
  end.

(** The updater passed to [setNodes] after a successful save. *)
Definition reconcileRelationshipIds (data : GraphDefinition)
    (currentNodes : list Node) : option (list Node) :=
  reconcileFrom data ∅ currentNodes.

(** *** The save protocol *)

Inductive Effect :=
| ToastWarning (message : str)
| ToastSuccess (message : str)
| ToastError (message : str)
| ConsoleError (label : str) (reason : Thrown)
| ClearErrors
| SetErrors (summary : ErrorSummary)
| MarkSaved
| SetNodes (nodes : list Node)
| SetMetadata (key value : str)
| RouterPush (url : str).

(** A computation that performs effects and then returns or throws. *)
Definition Run (A : Type) : Type := list Effect * (Thrown + A).

Definition ret {A} (a : A) : Run A := ([], inr a).

Definition bind {A B} (m : Run A) (f : A -> Run B) : Run B :=
  match m with
  | (es, inl t) => (es, inl t)
  | (es, inr a) => let '(es', r) := f a in (es ++ es', r)
  end.

Definition perform (e : Effect) : Run unit := ([e], inr tt).

Definition call {A} (r : Thrown + A) : Run A := ([], r).

Definition try_catch (body : Run unit) (handler : Thrown -> Run unit)
  : Run unit :=
  match body with
  | (es, inl t) => let '(es', r) := handler t in (es ++ es', r)
  | (es, inr tt) => (es, inr tt)
  end.

Definition when (b : bool) (m : Run unit) : Run unit :=
  if b then m else ret tt.

#[local] Notation "x <- m ;; k" := (bind m (fun x => k))
  (at level 20, m at level 99, k at level 200, only parsing).
#[local] Notation "m ;; k" := (bind m (fun _ => k))
  (at level 100, k at level 200, only parsing, right associativity).

(** The [TypeError] of the [in] operator applied to [undefined], with the
    message V8 gives it. *)
Definition canUse_in_undefined : Thrown :=
  ThrownError
    (lit "Cannot use 'in' operator to search for 'canUse' in undefined").

(** [graph?.id] *)
Definition graph_id (graph : option GraphDefinition) : option str :=
  g ← graph; g_id g.

(** [onSubmit] (lines 513-617). [nodes] and [edges] are the values the
    callback closed over, [currentNodes] the store's nodes when the
    [setNodes] updater runs; an updater that throws leaves the store as it
    was and rejects the promise. The options of the toasts are left out. *)
Definition onSubmit (graph : option GraphDefinition) (tenantId projectId : str)
    (nodes : list Node) (edges : list Edge) (metadata : Metadata)
    (dataComponentLookup : DataComponentLookup)
    (artifactComponentLookup : ArtifactComponentLookup)
    (agentToolConfigLookup : AgentToolConfigLookup)
    (toolLookup : gmap str MCPTool)
    (currentNodes : list Node) : Run unit :=
  warningMessage <-
    call (detectOrphanedToolsAndGetWarning nodes agentToolConfigLookup
            toolLookup) ;;
  when (truthy warningMessage)
    (perform (ToastWarning (default [] warningMessage))) ;;
  serializedData <-
    call (serializeGraphData nodes edges metadata dataComponentLookup
            artifactComponentLookup agentToolConfigLookup) ;;
  res <- call (saveGraph tenantId projectId serializedData (graph_id graph)) ;;
  match res with
  | SaveSuccess data =>
      perform ClearErrors ;;
      perform (ToastSuccess (lit "Graph saved")) ;;
      perform MarkSaved ;;
      match data with
      | Some d =>
          updated <-
            call (match reconcileRelationshipIds d currentNodes with
                  | Some updated => inr updated
                  | None => inl canUse_in_undefined
                  end) ;;
          perform (SetNodes updated)
      | None => ret tt
      end ;;
      when (negb (truthy (graph_id graph)) && truthy (graph_id data))
        (let id := default [] (graph_id data) in
         perform (SetMetadata (lit "id") id) ;;
         perform
           (RouterPush
              (lit "/" ++ tenantId ++ lit "/projects/" ++ projectId
               ++ lit "/graphs/" ++ id)))
  | SaveFailure error =>
      try_catch
        (errorSummary <- call (parseGraphValidationErrors error) ;;
         perform (SetErrors errorSummary) ;;
         summaryMessage <- call (getErrorSummaryMessage errorSummary) ;;
         perform
           (ToastError
              (if truthy summaryMessage then default [] summaryMessage
               else lit "Failed to save graph - validation errors found")))
        (fun parseError =>
           perform
             (ConsoleError (lit "Failed to parse validation errors:")
                parseError) ;;
           perform (ToastError (lit "Failed to save graph")))
  end.

End Flow.

(** The code unit of the hyphen that [getEdgeId] joins ids with. *)
Definition hyphen : N := 45.

(** *** The agent tool configuration lookup *)

Record AgentToolConfig := {
  c_toolId : str;
  c_toolSelection : option (list str);
  c_headers : option (gmap str str)
}.

(** The configuration recorded for one entry of a [canUse] list: its tool
    id, and its tool selection and headers when it has them. *)
Definition config_of (tool : CanUseItem) : AgentToolConfig :=
  {| c_toolId := cu_toolId tool;
     c_toolSelection := toolSelection tool;
     c_headers := cu_headers tool |}.

(** An object that starts as the literal [{}] and is only assigned to: its
    own members, and its prototype when an assignment to [__proto__] has
    replaced [Object.prototype]. *)
Record Obj (A : Type) := {
  own : gmap str A;
  proto : option A
}.
Arguments own {A} _.
Arguments proto {A} _.

(** [{}] *)
Definition empty_object {A} : Obj A := {| own := ∅; proto := None |}.

(** [obj[key] = value] for a [value] that is an object: the key [__proto__]
    sets the prototype and adds no member, every other key adds or replaces
    an own member. *)
Definition assign {A} (obj : Obj A) (key : str) (value : A) : Obj A :=
  if bool_decide (key = lit "__proto__")
  then {| own := own obj; proto := Some value |}
  else {| own := <[ key := value ]> (own obj); proto := proto obj |}.

(** The body of [agentData.canUse.forEach] (lines 157-173). *)
Definition toolsMap_step (toolsMap : Obj AgentToolConfig)
    (tool : CanUseItem) : Obj AgentToolConfig :=
  if truthy (agentToolRelationId tool)
  then assign toolsMap (default [] (agentToolRelationId tool)) (config_of tool)
  else toolsMap.

(** [toolsMap] after the loop over an agent's [canUse] list. *)
Definition toolsMap_of (tools : list CanUseItem) : Obj AgentToolConfig :=
  foldl toolsMap_step empty_object tools.

(** The body of [Object.entries(graph.agents).forEach] (lines 154-178). *)
Definition lookup_step (lookup : Obj (Obj AgentToolConfig))
    (entry : str * AgentDefinition) : Obj (Obj AgentToolConfig) :=
  let '(agentId, agentData) := entry in
  match canUse agentData with
  | Some tools =>
      let toolsMap := toolsMap_of tools in
      if bool_decide (0 < size (own toolsMap))
      then assign lookup agentId toolsMap
      else lookup
  | None => lookup
  end.

(** The [useMemo] that computes [agentToolConfigLookup] (lines 150-180):
    per agent with a [canUse] list, the relationships of that list by id,
    kept only when at least one is an own member. The entries of
    [graph.agents] are visited in the order of [map_to_list]; each key is
    assigned once, so the order makes no difference to the result. *)
Definition agentToolConfigLookup (graph : option GraphDefinition)
  : Obj (Obj AgentToolConfig) :=
  match graph with
  | None => empty_object
  | Some g => foldl lookup_step empty_object (map_to_list (agents g))
  end.

(** *** Selection and the side pane *)

Inductive Pane := GraphPane | NodePane | EdgePane.

(** The query state of [useSidePane]: [pane], [nodeId] and [edgeId]. *)
Record QueryState := {
  pane : option Pane;
  q_nodeId : option str;
  q_edgeId : option str
}.

(** The store's nodes and edges, and the query state. *)
Record Canvas := {
  c_nodes : list Node;
  c_edges : list Edge;
  c_query : QueryState
}.

(** [{ ...node, selected }] *)
Definition select_node (selected : bool) (node : Node) : Node :=
  {| n_id := n_id node;
     n_type := n_type node;
     n_position := n_position node;
     n_data := n_data node;
     n_selected := Some selected;
     n_deletable := n_deletable node |}.

(** [{ ...edge, selected }] *)
Definition select_edge (selected : bool) (edge : Edge) : Edge :=
  {| e_id := e_id edge;
     e_source := e_source edge;
     e_target := e_target edge;
     e_sourceHandle := e_sourceHandle edge;
     e_targetHandle := e_targetHandle edge;
     e_type := e_type edge;
     e_selected := Some selected;
     e_data := e_data edge |}.

(** [onSelectionChange] (lines 407-427): the query state it sets. *)
Definition onSelectionChange (isOpen : bool) (nodes : list Node)
    (edges : list Edge) : QueryState :=
  let node := match nodes with [n] => Some n | _ => None end in
  let edge :=
    match edges with
    | [e] =>
        if bool_decide (e_type e = Some A2A)
           || bool_decide (e_type e = Some SelfLoop)
        then Some e else None
    | _ => None
    end in
  let defaultPane := if isOpen then Some GraphPane else None in
  {| pane :=
       match node with
       | Some _ => Some NodePane
       | None =>
           match edge with
           | Some _ => Some EdgePane
           | None => defaultPane
           end
       end;
     q_nodeId := n_id <$> node;
     q_edgeId := e_id <$> edge |}.






(** The effect run on first render (lines 217-260). [nodeId] and [edgeId]
    are the ids read from the query state, [graphNodes] and [graphEdges] the
    nodes and edges computed from the graph, [openGraphPane] what the side
    pane hook's function of that name does to the query state. *)
Definition onMount (openGraphPane : QueryState -> QueryState)
    (graph : option GraphDefinition) (nodeId edgeId : option str)
    (graphNodes : list Node) (graphEdges : list Edge) (canvas : Canvas)
  : Canvas :=
  match graph with
  | None =>
      {| c_nodes := c_nodes canvas;
         c_edges := c_edges canvas;
         c_query := openGraphPane (c_query canvas) |}
  | Some _ =>
      let query1 :=
        if negb (truthy nodeId) && negb (truthy edgeId)
        then openGraphPane (c_query canvas) else c_query canvas in
      let nodes1 :=
        if truthy nodeId
        then (fun node => select_node (bool_decide (Some (n_id node) = nodeId))
                            node) <$> c_nodes canvas
        else c_nodes canvas in
      let edges1 :=
        if truthy edgeId
        then (fun edge => select_edge (bool_decide (Some (e_id edge) = edgeId))
                            edge) <$> c_edges canvas
        else c_edges canvas in
      let query2 :=
        if truthy nodeId
           && negb (existsb (fun node => bool_decide (Some (n_id node) = nodeId))
                      graphNodes)
        then {| pane := Some GraphPane;
                q_nodeId := None;
                q_edgeId := q_edgeId query1 |}
        else query1 in
      let query3 :=
        if truthy edgeId
           && negb (existsb (fun edge => bool_decide (Some (e_id edge) = edgeId))
                      graphEdges)
        then {| pane := Some GraphPane;
                q_nodeId := q_nodeId query2;
                q_edgeId := None |}
        else query2 in
      {| c_nodes := nodes1; c_edges := edges1; c_query := query3 |}
  end.

(** No two entries of a [canUse] list share a relationship id. *)
Definition unique_relationships (tools : list CanUseItem) : Prop :=
  forall t1 t2 r,
    t1 ∈ tools -> t2 ∈ tools ->
    agentToolRelationId t1 = Some r -> agentToolRelationId t2 = Some r ->
    r <> [] -> t1 = t2.

(** Whatever is selected is what the query state names. *)
Definition selection_consistent (canvas : Canvas) : Prop :=
  (forall node, node ∈ c_nodes canvas -> n_selected node = Some true ->
                q_nodeId (c_query canvas) = Some (n_id node))
  /\ (forall edge, edge ∈ c_edges canvas -> e_selected edge = Some true ->
                   q_edgeId (c_query canvas) = Some (e_id edge)).

(** Two canvases hold the same nodes and edges but for what is selected. *)
Definition same_but_selection (c1 c2 : Canvas) : Prop :=
  select_node false <$> c_nodes c1 = select_node false <$> c_nodes c2
  /\ select_edge false <$> c_edges c1 = select_edge false <$> c_edges c2.

End Graph.

(** ** The API configuration module *)

Module Api.
Import Js Errors.

(** The constants of [../runtime-config/defaults]. *)
Class Defaults := {
  DEFAULT_INKEEP_AGENTS_MANAGE_API_URL : str;
  DEFAULT_INKEEP_AGENTS_RUN_API_URL : str
}.

(** [process.env]. *)
Abbreviation Env := (gmap str str).

(** The module's variables, and the lines written by [console.warn], oldest
    first. *)
Record State := {
  INKEEP_AGENTS_MANAGE_API_URL : option str;
  INKEEP_AGENTS_RUN_API_URL : option str;
  hasWarnedManageApi : bool;
  hasWarnedRunApi : bool;
  warnings : list str
}.

(** The state when the module has just been loaded. *)
Definition initial : State :=
  {| INKEEP_AGENTS_MANAGE_API_URL := None;
     INKEEP_AGENTS_RUN_API_URL := None;
     hasWarnedManageApi := false;
     hasWarnedRunApi := false;
     warnings := [] |}.

(** A member of a headers object: a string, or, in the object made by
    spreading an array of pairs, one of these pairs. *)
Inductive HeaderValue :=
| HeaderString (s : str)
| HeaderPair (pair : list str).

(** [HeadersInit]: a plain object (its own members), a [Headers] instance
    (the headers it holds), or an array of name and value pairs. *)
Inductive HeadersInit :=
| HeadersRecord (members : gmap str HeaderValue)
| HeadersInstance (entries : list (str * str))
| HeadersArray (pairs : list (list str)).

(** [RequestInit], as far as the helper and its callers use it. *)
Record RequestInit := {
  method : option str;
  body : option str;
  headers : option HeadersInit
}.

(** What [fetch] is called with. *)
Record Request := {
  url : str;
  init : RequestInit
}.

(** The [Authorization] header of a request whose headers are a plain
    object. *)
Definition authorization (sent : Request) : option str :=
  match headers (init sent) with
  | Some (HeadersRecord members) =>
      match members !! lit "Authorization" with
      | Some (HeaderString s) => Some s
      | _ => None
      end
  | _ => None
  end.

(** The decimal digits of a number, most significant first. *)
Fixpoint decimal_digits (fuel : nat) (n : N) (digits : str) : str :=
  let digits := (48 + n mod 10)%N :: digits in
  match fuel with
  | O => digits
  | S fuel' =>
      if (n / 10 =? 0)%N then digits
      else decimal_digits fuel' (n / 10)%N digits
  end.

(** The property key of the element [i] of an array. *)
Definition index_key (i : nat) : str := decimal_digits i (N.of_nat i) [].

(** The own enumerable string-keyed members that [...headers] copies into
    an object literal: those of a plain object; none of a [Headers]
    instance, which keeps its headers out of its properties; and of an array
    its elements under their indices. *)
Definition spread_headers (h : option HeadersInit) : gmap str HeaderValue :=
  match h with
  | None => ∅
  | Some (HeadersRecord members) => members
  | Some (HeadersInstance _) => ∅
  | Some (HeadersArray pairs) =>
      list_to_map (imap (fun i pair => (index_key i, HeaderPair pair)) pairs)
  end.

(** A [Response]: its status, its [content-type] header, and what
    [response.json()] and [response.text()] settle with. *)
Record Response := {
  r_status : Z;
  r_contentType : option str;
  r_json : Thrown + json;
  r_text : Thrown + str
}.

(** [response.ok]: the status is in the range 200 to 299. *)
Definition ok (response : Response) : bool :=
  bool_decide (200 ≤ r_status response ≤ 299)%Z.

(** The platform under the helper: [fetch], [JSON.parse], and the message
    of the [TypeError] raised by reading a property of [null]. *)
Class Platform := {
  fetch : Request -> Thrown + Response;
  JSON_parse : str -> Thrown + json;
  null_read_message : str
}.

(** [v.error] for a parsed body [v]. *)
Definition get_error `{Platform} (v : json) : Thrown + value :=
  match v with
  | JNull => inl (ThrownError null_read_message)
  | JObj members => inr (member (lit "error") members)
  | _ => inr None
  end.

Definition unknown_error : json :=
  JObj [ (lit "code", JStr (lit "unknown"));
         (lit "message", JStr (lit "Unknown error occurred")) ].

Definition internal_server_error (message : str) : json :=
  JObj [ (lit "code", JStr (lit "internal_server_error"));
         (lit "message", JStr message) ].

(** The text of the fallback warning for a variable and its default. *)
Definition fallback_warning (variable fallback : str) : str :=
  variable ++ lit " is not set, falling back to: " ++ fallback.

Section Requests.
Context `{Defaults} `{Platform}.

(** [getManageApiUrl] (lines 19-32): the value returned and the state
    left. *)
Definition getManageApiUrl (env : Env) (st : State) : str * State :=
  match INKEEP_AGENTS_MANAGE_API_URL st with
  | None =>
      let configured := env !! lit "INKEEP_AGENTS_MANAGE_API_URL" in
      let resolved :=
        if truthy configured then default [] configured
        else DEFAULT_INKEEP_AGENTS_MANAGE_API_URL in
      if negb (truthy configured) && negb (hasWarnedManageApi st) then
        (resolved,
         {| INKEEP_AGENTS_MANAGE_API_URL := Some resolved;
            INKEEP_AGENTS_RUN_API_URL := INKEEP_AGENTS_RUN_API_URL st;
            hasWarnedManageApi := true;
            hasWarnedRunApi := hasWarnedRunApi st;
            warnings :=
              warnings st
              ++ [fallback_warning (lit "INKEEP_AGENTS_MANAGE_API_URL")
                    DEFAULT_INKEEP_AGENTS_MANAGE_API_URL] |})
      else
        (resolved,
         {| INKEEP_AGENTS_MANAGE_API_URL := Some resolved;
            INKEEP_AGENTS_RUN_API_URL := INKEEP_AGENTS_RUN_API_URL st;
            hasWarnedManageApi := hasWarnedManageApi st;
            hasWarnedRunApi := hasWarnedRunApi st;
            warnings := warnings st |})
  | Some cached => (cached, st)
  end.

(** [getRunApiUrl] (lines 34-47). *)
Definition getRunApiUrl (env : Env) (st : State) : str * State :=
  match INKEEP_AGENTS_RUN_API_URL st with
  | None =>
      let configured := env !! lit "INKEEP_AGENTS_RUN_API_URL" in
      let resolved :=
        if truthy configured then default [] configured
        else DEFAULT_INKEEP_AGENTS_RUN_API_URL in
      if negb (truthy configured) && negb (hasWarnedRunApi st) then
        (resolved,
         {| INKEEP_AGENTS_MANAGE_API_URL := INKEEP_AGENTS_MANAGE_API_URL st;
            INKEEP_AGENTS_RUN_API_URL := Some resolved;
            hasWarnedManageApi := hasWarnedManageApi st;
            hasWarnedRunApi := true;
            warnings :=
              warnings st
              ++ [fallback_warning (lit "INKEEP_AGENTS_RUN_API_URL")
                    DEFAULT_INKEEP_AGENTS_RUN_API_URL] |})
      else
        (resolved,
         {| INKEEP_AGENTS_MANAGE_API_URL := INKEEP_AGENTS_MANAGE_API_URL st;
            INKEEP_AGENTS_RUN_API_URL := Some resolved;
            hasWarnedManageApi := hasWarnedManageApi st;
            hasWarnedRunApi := hasWarnedRunApi st;
            warnings := warnings st |})
  | Some cached => (cached, st)
  end.

(** [defaultHeaders]: the content type, overridden by what the spread of
    the caller's headers copies, overridden by the bearer token when the
    secret is truthy. *)
Definition defaultHeaders (env : Env) (options : RequestInit)
  : gmap str HeaderValue :=
  let base : gmap str HeaderValue :=
    spread_headers (headers options)
    ∪ {[ lit "Content-Type" := HeaderString (lit "application/json") ]} in
  let secret := env !! lit "INKEEP_AGENTS_MANAGE_API_BYPASS_SECRET" in
  if truthy secret
  then <[ lit "Authorization" :=
            HeaderString (lit "Bearer " ++ default [] secret) ]> base
  else base.

(** The request [makeApiRequestInternal] passes to [fetch]. *)
Definition request (env : Env) (baseUrl endpoint : str)
    (options : RequestInit) : Request :=
  {| url := baseUrl ++ lit "/" ++ endpoint;
     init :=
       {| method := method options;
          body := body options;
          headers := Some (HeadersRecord (defaultHeaders env options)) |} |}.

(** The body of the [try] block, given what [fetch] settled with. *)
Definition attempt (fetched : Thrown + Response) : Thrown + value :=
  match fetched with
  | inl reason => inl reason
  | inr response =>
      if negb (ok response) then
        let errorData :=
          match r_json response with
          | inr parsed => parsed
          | inl _ => JObj [ (lit "error", unknown_error) ]
          end in
        match get_error errorData with
        | inl reason => inl reason
        | inr e =>
            inl (ThrownApiError
                   {| error := if to_boolean e then e else Some unknown_error;
                      status := r_status response |})
        end
      else
        let hasJsonContent :=
          match r_contentType response with
          | Some contentType => includes contentType (lit "application/json")
          | None => false
          end in
        if hasJsonContent then
          match r_text response with
          | inl reason => inl reason
          | inr text =>
              if truthy (Some text) then
                match JSON_parse text with
                | inl reason => inl reason
                | inr parsed => inr (Some parsed)
                end
              else inr None
          end
        else inr None
  end.

(** The [catch] block. *)
Definition rethrow (reason : Thrown) : Thrown :=
  match reason with
  | ThrownApiError e => ThrownApiError e
  | ThrownError message =>
      ThrownApiError
        {| error := Some (internal_server_error message); status := 500 |}
  | ThrownValue _ =>
      ThrownApiError
        {| error :=
             Some (internal_server_error (lit "Network error occurred"));
           status := 500 |}
  end.

(** [makeApiRequestInternal]: the request it sends, and what its promise
    settles with. *)
Definition makeApiRequestInternal (env : Env) (baseUrl endpoint : str)
    (options : RequestInit) : Request * (Thrown + value) :=
  let sent := request env baseUrl endpoint options in
  (sent,
   match attempt (fetch sent) with
   | inl reason => inl (rethrow reason)
   | inr result => inr result
   end).

(** The two public wrappers (lines 112-125): the request sent, what the
    promise settles with, and the state left by resolving the base URL. *)
Definition makeManagementApiRequest (env : Env) (st : State)
    (endpoint : str) (options : RequestInit)
  : Request * (Thrown + value) * State :=
  let '(baseUrl, st') := getManageApiUrl env st in
  (makeApiRequestInternal env baseUrl endpoint options, st').

Definition makeAgentsRunApiRequest (env : Env) (st : State)
    (endpoint : str) (options : RequestInit)
  : Request * (Thrown + value) * State :=
  let '(baseUrl, st') := getRunApiUrl env st in
  (makeApiRequestInternal env baseUrl endpoint options, st').

(** Successive calls of one of the two getters, one per element of [envs]
    (the environment at the time of that call): the values returned, oldest
    first, and the state left. *)
Fixpoint calls (get : Env -> State -> str * State) (envs : list Env)
    (st : State) : list str * State :=
  match envs with
  | [] => ([], st)
  | env :: envs' =>
      let '(returned, st1) := get env st in
      let '(later, st2) := calls get envs' st1 in
      (returned :: later, st2)
  end.

End Requests.

(** *** Callers of the two getters *)

(** Which of [getManageApiUrl] and [getRunApiUrl] a caller invokes. *)
Inductive Getter := ManageApiUrl | RunApiUrl.

#[export] Instance Getter_eq_dec : EqDecision Getter.
Proof. solve_decision. Defined.

Section Callers.
Context `{Defaults}.

Definition getApiUrl (which : Getter) : Env -> State -> str * State :=
  match which with
  | ManageApiUrl => getManageApiUrl
  | RunApiUrl => getRunApiUrl
  end.

(** The environment variable a getter reads, its default, its module
    variable, its flag, and the warning it writes. *)
Definition variable_of (which : Getter) : str :=
  match which with
  | ManageApiUrl => lit "INKEEP_AGENTS_MANAGE_API_URL"
  | RunApiUrl => lit "INKEEP_AGENTS_RUN_API_URL"
  end.

Definition default_of (which : Getter) : str :=
  match which with
  | ManageApiUrl => DEFAULT_INKEEP_AGENTS_MANAGE_API_URL
  | RunApiUrl => DEFAULT_INKEEP_AGENTS_RUN_API_URL
  end.

Definition cached_of (which : Getter) (st : State) : option str :=
  match which with
  | ManageApiUrl => INKEEP_AGENTS_MANAGE_API_URL st
  | RunApiUrl => INKEEP_AGENTS_RUN_API_URL st
  end.

Definition warned_of (which : Getter) (st : State) : bool :=
  match which with
  | ManageApiUrl => hasWarnedManageApi st
  | RunApiUrl => hasWarnedRunApi st
  end.

Definition warning_of (which : Getter) : str :=
  fallback_warning (variable_of which) (default_of which).

(** [process.env.X || DEFAULT_X] for the variable of a getter. *)
Definition resolve (which : Getter) (env : Env) : str :=
  if truthy (env !! variable_of which)
  then default [] (env !! variable_of which)
  else default_of which.

(** A sequence of calls of the two getters in any order, each under the
    environment of its time: the values returned, oldest first, and the
    state left. *)
Fixpoint interleaved (cs : list (Getter * Env)) (st : State)
  : list str * State :=
  match cs with
  | [] => ([], st)
  | (which, env) :: cs' =>
      let '(returned, st1) := getApiUrl which env st in
      let '(later, st2) := interleaved cs' st1 in
      (returned :: later, st2)
  end.

(** The environment of the first call of a getter in a sequence. *)
Definition first_call (which : Getter) (cs : list (Getter * Env))
  : option Env :=
  snd <$> List.find (fun c => bool_decide (c.1 = which)) cs.

End Callers.

(** [contentType?.includes('application/json')] is truthy: there is a
    content type, and [application/json] occurs in it. *)
Definition has_json_content (response : Response) : Prop :=
  exists contentType before after,
    r_contentType response = Some contentType
    /\ contentType = before ++ lit "application/json" ++ after.

(** The number that a string of decimal digits writes. *)
Fixpoint digits_value (digits : str) : N :=
  match digits with
  | [] => 0
  | c :: digits' => ((c - 48) * 10 ^ N.of_nat (length digits')
                     + digits_value digits')%N
  end.

(** A code unit is a decimal digit. *)
Definition is_digit (c : N) : Prop := (48 <= c <= 57)%N.

End Api.

(** * Sample inputs *)

Module Samples.
Import Js Errors Graph Api.

(** Handle ids used to run the definitions on concrete connections. *)
Definition sample_ids : NodeTypeIds :=
  {| agentNodeSourceHandleId := lit "agent-source";
     agentNodeTargetHandleId := lit "agent-target";
     externalAgentNodeTargetHandleId := lit "external-agent-target";
     mcpNodeHandleId := lit "mcp" |}.

(** An agent handle of one node dragged onto an agent handle of another. *)
Definition sample_connection : Connection :=
  {| source := lit "agent-2";
     target := lit "agent-1";
     sourceHandle := Some (lit "agent-source");
     targetHandle := Some (lit "agent-target") |}.

(** A new MCP node for tool [tool] attached to agent [agent]. *)
Definition sample_mcp_node (id agent tool : string) (relationship : option str)
  : Node :=
  {| n_id := lit id;
     n_type := Some MCP;
     n_position := {| x := 0; y := 0 |};
     n_data :=
       {| name := Some (lit "search");
          isDefault := None;
          toolId := Some (lit tool);
          agentId := Some (lit agent);
          relationshipId := relationship;
          imageUrl := None;
          provider := None;
          rest := ∅ |};
     n_selected := None;
     n_deletable := None |}.

Definition sample_canUse (tool relationship : string) : CanUseItem :=
  {| cu_toolId := lit tool;
     agentToolRelationId := Some (lit relationship);
     toolSelection := None;
     cu_headers := None |}.

(** A saved graph whose agent [a1] uses tool [t1] through two
    relationships. *)
Definition sample_saved : GraphDefinition :=
  {| g_id := Some (lit "g1");
     agents :=
       {[ lit "a1" :=
            {| canUse := Some [sample_canUse "t1" "r1";
                               sample_canUse "t1" "r2"] |} ]} |}.

(** A domain whose save operation always fails with a validation error,
    which the parser passes on as the summary and the message. *)
Definition sample_failing_domain : Domain :=
  {| Metadata := unit;
     DataComponentLookup := unit;
     ArtifactComponentLookup := unit;
     AgentToolConfigLookup := unit;
     RawError := str;
     ErrorSummary := str;
     deserializeGraphData := fun _ => inr ([], []);
     getToolTypeAndName_type := fun _ => inr (Some (lit "mcp"));
     detectOrphanedToolsAndGetWarning := fun _ _ _ => inr None;
     serializeGraphData :=
       fun _ _ _ _ _ _ => inr {| g_id := None; agents := ∅ |};
     saveGraph :=
       fun _ _ _ _ => inr (SaveFailure (lit "agent a1 has no name"));
     parseGraphValidationErrors := fun e => inr e;
     getErrorSummaryMessage := fun s => inr (Some s) |}.

Definition sample_defaults : Defaults :=
  {| DEFAULT_INKEEP_AGENTS_MANAGE_API_URL := lit "http://localhost:3002";
     DEFAULT_INKEEP_AGENTS_RUN_API_URL := lit "http://localhost:3003" |}.


(** A platform whose [fetch] answers 404 with the body [null]. *)
Definition sample_null_body_platform : Platform :=
  {| fetch := fun _ =>
       inr {| r_status := 404;
              r_contentType := Some (lit "application/json");
              r_json := inr JNull;
              r_text := inl (ThrownError (lit "body stream already read")) |};
     JSON_parse := fun _ => inl (ThrownError (lit "Unexpected end of JSON input"));
     null_read_message :=
       lit "Cannot read properties of null (reading 'error')" |}.

Definition no_options : RequestInit :=
  {| method := None; body := None; headers := None |}.

(** An environment in which only the run bypass secret is set. *)
Definition env_run_secret_only : Env :=
  {[ lit "INKEEP_AGENTS_RUN_API_BYPASS_SECRET" := lit "run-secret" ]}.

(** An environment in which only the manage bypass secret is set. *)
Definition env_manage_secret_only : Env :=
  {[ lit "INKEEP_AGENTS_MANAGE_API_BYPASS_SECRET" := lit "manage-secret" ]}.


(** A domain whose save operation succeeds with a response that has no
    agents. *)
Definition sample_saving_domain : Domain :=
  {| Metadata := unit;
     DataComponentLookup := unit;
     ArtifactComponentLookup := unit;
     AgentToolConfigLookup := unit;
     RawError := str;
     ErrorSummary := str;
     deserializeGraphData := fun _ => inr ([], []);
     getToolTypeAndName_type := fun _ => inr (Some (lit "mcp"));
     detectOrphanedToolsAndGetWarning := fun _ _ _ => inr None;
     serializeGraphData :=
       fun _ _ _ _ _ _ => inr {| g_id := None; agents := ∅ |};
     saveGraph :=
       fun _ _ _ _ =>
         inr (SaveSuccess (Some {| g_id := Some (lit "g1"); agents := ∅ |}));
     parseGraphValidationErrors := fun e => inr e;
     getErrorSummaryMessage := fun s => inr (Some s) |}.



End Samples.

(** * Properties *)

(** ** String order *)

Module JsFacts.
Import Js.

Lemma str_ltb_lt (a b : str) : str_ltb a b = true <-> str_lt a b.
Proof.
  revert b; induction a as [|x a IH]; intros [|y b]; simpl.
  - split; [discriminate | inversion 1].
  - split; [constructor | reflexivity].
  - split; [discriminate | inversion 1].
  - destruct (N.ltb_spec x y) as [Hxy|Hxy].
    + split; [intros _; now constructor | reflexivity].
    + destruct (N.ltb_spec y x) as [Hyx|Hyx].
      * split; [discriminate |].
        inversion 1; subst; lia.
      * assert (x = y) as -> by lia.
        rewrite IH. split; [now constructor |].
        inversion 1; subst; [lia | assumption].
Qed.

Lemma str_lt_irrefl (a : str) : ~ str_lt a a.
Proof.
  induction a as [|x a IH]; inversion 1; subst; [lia | auto].
Qed.

Lemma str_lt_asym (a b : str) : str_lt a b -> ~ str_lt b a.
Proof.
  induction 1 as [y b|x y a b Hxy|x a b _ IH]; inversion 1; subst;
    try lia; auto.
Qed.

Lemma str_lt_total (a b : str) : a <> b -> str_lt a b \/ str_lt b a.
Proof.
  revert b; induction a as [|x a IH]; intros [|y b] Hne.
  - congruence.
  - left; constructor.
  - right; constructor.
  - destruct (N.lt_trichotomy x y) as [Hlt|[->|Hgt]].
    + left; now constructor.
    + destruct (IH b) as [Hab|Hba]; [congruence | |].
      * left; now constructor.
      * right; now constructor.
    + right; now constructor.
Qed.

Lemma sort2_lt (a b : str) : str_lt a b -> sort2 a b = (a, b) /\ sort2 b a = (a, b).
Proof.
  intros Hab. unfold sort2.
  pose proof (proj2 (str_ltb_lt a b) Hab) as ->.
  destruct (str_ltb b a) eqn:Hba; [|done].
  apply str_ltb_lt in Hba. now apply str_lt_asym in Hba.
Qed.

Lemma get_property_Own {A} (obj : gmap str A) (key : str) (a : A) :
  get_property obj key = Own a <-> obj !! key = Some a.
Proof.
  unfold get_property. destruct (obj !! key); [|case_bool_decide];
    split; congruence.
Qed.

Lemma get_property_Undefined {A} (obj : gmap str A) (key : str) :
  get_property obj key = Undefined
  <-> obj !! key = None /\ key ∉ Object_prototype_members.
Proof.
  unfold get_property. destruct (obj !! key); [|case_bool_decide].
  - split; [done|]. by intros [? _].
  - split; [done|]. by intros [_ ?].
  - done.
Qed.

Lemma get_property_Inherited {A} (obj : gmap str A) (key key' : str) :
  get_property obj key = Inherited key'
  <-> obj !! key = None /\ key ∈ Object_prototype_members /\ key' = key.
Proof.
  unfold get_property. destruct (obj !! key); [|case_bool_decide].
  - split; [done|]. by intros [? _].
  - split; [by intros [= <-]|]. by intros (_ & _ & ->).
  - split; [done|]. by intros (_ & ? & _).
Qed.

End JsFacts.

(** ** graph.tsx: connections and the initial canvas *)

Module GraphFacts.
Import Js Errors Graph JsFacts Samples.

Section ConnectFacts.
Context `{NodeTypeIds}.

Lemma agent_handle_decide (h : option str) :
  handle_is h agentNodeSourceHandleId || handle_is h agentNodeTargetHandleId
  = true <-> agent_handle h.
Proof.
  unfold handle_is, agent_handle.
  rewrite orb_true_iff, !bool_decide_eq_true. reflexivity.
Qed.

Lemma agent_handle_decide' (h : option str) :
  handle_is h agentNodeTargetHandleId || handle_is h agentNodeSourceHandleId
  = true <-> agent_handle h.
Proof. rewrite orb_comm. apply agent_handle_decide. Qed.

(** The edge handed to the command manager is [onConnectWrapped_newEdge]. *)
Lemma onConnectWrapped_executes (nodes : list Node) (params : Connection) :
  exists updates,
    onConnectWrapped nodes params
    = MarkUnsaved :: updates
      ++ [ExecuteAddPreparedEdge (onConnectWrapped_newEdge params) true]
    /\ forall e, e ∈ updates -> exists id d, e = UpdateNodeData id d.
Proof.
  unfold onConnectWrapped. eexists; split; [reflexivity|].
  intros e.
  destruct (_ && _); [|by intros ?%elem_of_nil].
  destruct (find_node _ _); [|by intros ?%elem_of_nil].
  case_bool_decide; [|by intros ?%elem_of_nil].
  intros ->%list_elem_of_singleton. eauto.
Qed.

(** Type and payload of the new edge, by the branch taken. *)
Lemma newEdge_cases (p : Connection) :
  let e := onConnectWrapped_newEdge p in
  (source p = target p ->
     e_type e = Some SelfLoop
     /\ e_data e = Some {| relationships := transferSourceToTargetOnly |})
  /\ (source p <> target p ->
      agent_handle (sourceHandle p) -> agent_handle (targetHandle p) ->
      e_type e = Some A2A
      /\ e_data e = Some {| relationships := transferSourceToTargetOnly |})
  /\ (source p <> target p ->
      ~ (agent_handle (sourceHandle p) /\ agent_handle (targetHandle p)) ->
      agent_handle (sourceHandle p) ->
      targetHandle p = Some externalAgentNodeTargetHandleId ->
      e_type e = Some A2AExternal
      /\ e_data e = Some {| relationships := delegateSourceToTargetOnly |})
  /\ (source p <> target p ->
      ~ (agent_handle (sourceHandle p) /\ agent_handle (targetHandle p)) ->
      ~ (agent_handle (sourceHandle p)
         /\ targetHandle p = Some externalAgentNodeTargetHandleId) ->
      e_type e = None /\ e_data e = None).
Proof.
  unfold onConnectWrapped_newEdge; simpl.
  pose proof (agent_handle_decide (sourceHandle p)) as Hs.
  pose proof (agent_handle_decide' (targetHandle p)) as Ht.
  assert (handle_is (targetHandle p) externalAgentNodeTargetHandleId = true
          <-> targetHandle p = Some externalAgentNodeTargetHandleId) as Hx
    by apply bool_decide_eq_true.
  destruct (handle_is (sourceHandle p) agentNodeSourceHandleId
            || handle_is (sourceHandle p) agentNodeTargetHandleId) eqn:Es;
  destruct (handle_is (targetHandle p) agentNodeTargetHandleId
            || handle_is (targetHandle p) agentNodeSourceHandleId) eqn:Et;
  destruct (handle_is (targetHandle p) externalAgentNodeTargetHandleId) eqn:Ex;
  case_bool_decide; simpl; repeat split; intros; try done;
    try (exfalso; intuition congruence).
Qed.

Lemma newEdge_pure (p q : Connection) :
  sourceHandle p = sourceHandle q ->
  targetHandle p = targetHandle q ->
  (source p = target p <-> source q = target q) ->
  e_type (onConnectWrapped_newEdge p) = e_type (onConnectWrapped_newEdge q)
  /\ e_selected (onConnectWrapped_newEdge p)
     = e_selected (onConnectWrapped_newEdge q)
  /\ e_data (onConnectWrapped_newEdge p) = e_data (onConnectWrapped_newEdge q).
Proof.
  intros Hs Ht Hloop. unfold onConnectWrapped_newEdge; simpl.
  rewrite Hs, Ht.
  rewrite (bool_decide_ext _ _ Hloop).
  case_bool_decide; simpl; [done|].
  repeat (destruct (_ && _); simpl; [done|]); done.
Qed.

(** C1. The type and the default relationships of a new edge are a function
    of the two handles and of whether the connection is a self-loop: a
    connection from a node to itself gives a SelfLoop edge that transfers
    from source to target only; otherwise two agent-control handles give an
    A2A edge with the same relationships; otherwise an agent-control source
    handle and the external-agent target handle give an A2AExternal edge
    that delegates from source to target only; otherwise the edge has no
    type of its own (the canvas default) and no relationships payload. This
    edge is the one [onConnectWrapped] hands to the command manager. *)
Theorem connection_inference (p : Connection) :
  let e := onConnectWrapped_newEdge p in
  (forall q : Connection,
     sourceHandle q = sourceHandle p ->
     targetHandle q = targetHandle p ->
     (source q = target q <-> source p = target p) ->
     e_type (onConnectWrapped_newEdge q) = e_type e
     /\ e_data (onConnectWrapped_newEdge q) = e_data e)
  /\ (source p = target p ->
      e_type e = Some SelfLoop
      /\ e_data e = Some {| relationships := transferSourceToTargetOnly |})
  /\ (source p <> target p ->
      agent_handle (sourceHandle p) -> agent_handle (targetHandle p) ->
      e_type e = Some A2A
      /\ e_data e = Some {| relationships := transferSourceToTargetOnly |})
  /\ (source p <> target p ->
      ~ (agent_handle (sourceHandle p) /\ agent_handle (targetHandle p)) ->
      agent_handle (sourceHandle p) ->
      targetHandle p = Some externalAgentNodeTargetHandleId ->
      e_type e = Some A2AExternal
      /\ e_data e = Some {| relationships := delegateSourceToTargetOnly |})
  /\ (source p <> target p ->
      ~ (agent_handle (sourceHandle p) /\ agent_handle (targetHandle p)) ->
      ~ (agent_handle (sourceHandle p)
         /\ targetHandle p = Some externalAgentNodeTargetHandleId) ->
      e_type e = None /\ e_data e = None)
  /\ (forall nodes, last (onConnectWrapped nodes p)
                    = Some (ExecuteAddPreparedEdge e true)).
Proof.
  intros e. split; [|split].
  - intros q Hs Ht Hloop.
    destruct (newEdge_pure q p Hs Ht Hloop) as (? & _ & ?). done.
  - apply (newEdge_cases p).
  - pose proof (newEdge_cases p) as (_ & ? & ? & ?).
    repeat (split; [assumption|]).
    intros nodes.
    destruct (onConnectWrapped_executes nodes p) as (updates & -> & _).
    rewrite app_comm_cons. apply last_snoc.
Qed.

(** C2. [getEdgeId] does not depend on the order of its arguments: for
    distinct node ids it is ["edge-"], the smaller id, ["-"], the larger id,
    whichever way round they are given, and this is the id of the edge made
    for a connection between two different nodes. The id of a self-loop is
    ["edge-self-"] followed by the node id, so it depends on that id only. *)
Theorem edge_id_symmetric (a b : str) :
  (a <> b ->
   getEdgeId a b = getEdgeId b a
   /\ exists low high,
        (low = a /\ high = b \/ low = b /\ high = a)
        /\ str_lt low high
        /\ getEdgeId a b = lit "edge-" ++ low ++ lit "-" ++ high)
  /\ (forall p : Connection,
        source p = a -> target p = b -> a <> b ->
        e_id (onConnectWrapped_newEdge p) = getEdgeId a b)
  /\ (forall p : Connection,
        source p = a -> target p = a ->
        e_id (onConnectWrapped_newEdge p) = lit "edge-self-" ++ a)
  /\ (forall p q : Connection,
        source p = a -> target p = a -> source q = a -> target q = a ->
        e_id (onConnectWrapped_newEdge p) = e_id (onConnectWrapped_newEdge q)).
Proof.
  assert (Hself : forall p : Connection, source p = a -> target p = a ->
            e_id (onConnectWrapped_newEdge p) = lit "edge-self-" ++ a).
  { intros p Hs Ht. unfold onConnectWrapped_newEdge; simpl.
    rewrite bool_decide_eq_true_2 by congruence. simpl. by rewrite Hs. }
  split; [|split; [|split]].
  - intros Hne. destruct (str_lt_total a b Hne) as [Hlt|Hlt].
    + destruct (sort2_lt a b Hlt) as [Hab Hba].
      unfold getEdgeId. rewrite Hab, Hba. split; [done|].
      exists a, b. auto.
    + destruct (sort2_lt b a Hlt) as [Hba Hab].
      unfold getEdgeId. rewrite Hab, Hba. split; [done|].
      exists b, a. auto.
  - intros p Hs Ht Hne. unfold onConnectWrapped_newEdge; simpl.
    rewrite bool_decide_eq_false_2 by congruence.
    rewrite Hs, Ht.
    repeat (destruct (_ && _); simpl; [done|]); done.
  - exact Hself.
  - intros p q Hp Hp' Hq Hq'. by rewrite !Hself.
Qed.

(** C4. The validity predicate rejects a connection exactly when both its
    source handle and its target handle are the MCP handle; every other pair
    of handles is accepted. *)
Theorem isValidConnection_rejects_mcp_to_mcp_only
    (sourceHandle targetHandle : option str) :
  (isValidConnection sourceHandle targetHandle = false
   <-> sourceHandle = Some mcpNodeHandleId
       /\ targetHandle = Some mcpNodeHandleId)
  /\ (isValidConnection sourceHandle targetHandle = true
      <-> ~ (sourceHandle = Some mcpNodeHandleId
             /\ targetHandle = Some mcpNodeHandleId)).
Proof.
  unfold isValidConnection, handle_is.
  do 2 case_bool_decide; simpl; intuition congruence.
Qed.

End ConnectFacts.

Section FlowFacts.
Context `{NodeTypeIds} `{Domain}.


(** C10. With no graph given, the canvas starts with exactly one node and
    no edge: an Agent node at the origin, marked as the default agent, with
    an empty name, and not deletable. *)
Theorem initial_canvas_without_graph
    (toolLookup : gmap str MCPTool) (nanoid : str) :
  exists node : Node,
    graphNodesAndEdges None toolLookup nanoid = inr ([node], [])
    /\ n_id node = nanoid
    /\ n_type node = Some Agent
    /\ n_position node = {| x := 0; y := 0 |}
    /\ name (n_data node) = Some []
    /\ isDefault (n_data node) = Some true
    /\ n_deletable node = Some false.
Proof.
  unfold graphNodesAndEdges, initialNodes, initialEdges; simpl.
  eexists; split; [reflexivity|]. simpl. done.
Qed.

(** *** Relationship-id reconciliation *)

Lemma truthy_Some (s : option str) :
  truthy s = true <-> exists r, s = Some r /\ r <> [].
Proof.
  destruct s as [[|c r]|]; simpl; split; try done.
  - intros (r & [= <-] & Hr). done.
  - intros _. eexists; split; [reflexivity | done].
  - intros (r & [=] & _).
Qed.



Lemma matches_true (toolId' : str) (processed : gset str) (tool : CanUseItem) :
  matches toolId' processed tool = true
  <-> exists r, cu_toolId tool = toolId'
                /\ agentToolRelationId tool = Some r /\ r <> []
                /\ r ∉ processed.
Proof.
  unfold matches. rewrite !andb_true_iff, negb_true_iff, truthy_Some.
  rewrite bool_decide_eq_true. split.
  - intros ((Ht & r & Hr & Hne) & Hp). exists r. rewrite Hr in Hp.
    apply bool_decide_eq_false in Hp. done.
  - intros (r & Ht & Hr & Hne & Hp). rewrite Hr. repeat split; eauto.
    by apply bool_decide_eq_false.
Qed.

(** One step of the updater. *)
Lemma reconcileNode_spec (data : GraphDefinition) (processed : gset str)
    (node : Node) :
  (awaits_relationship node = true ->
   forall agentId', agentId (n_data node) = Some agentId' ->
                    get_property (agents data) agentId' <> Undefined) ->
  (awaits_relationship node = false
   /\ reconcileNode data processed node = Some (node, processed))
  \/ (awaits_relationship node = true
      /\ reconcileNode data processed node = Some (node, processed)
      /\ forall r, candidate data node r -> r ∈ processed)
  \/ (awaits_relationship node = true
      /\ exists r,
           reconcileNode data processed node
           = Some (with_relationshipId node (Some r), {[ r ]} ∪ processed)
           /\ candidate data node r /\ r ∉ processed).
Proof.
  intros Hknown. unfold reconcileNode, awaits_relationship in *.
  case_bool_decide as Htype; simpl in *; [|by left].
  destruct (truthy (agentId (n_data node))) eqn:Ha; simpl in *; [|by left].
  destruct (truthy (toolId (n_data node))) eqn:Ht; simpl in *; [|by left].
  destruct (truthy (relationshipId (n_data node))) eqn:Hr; simpl in *;
    [by left|].
  right.
  apply truthy_Some in Ha as (a & Ha & Hane).
  apply truthy_Some in Ht as (t & Ht & Htne).
  rewrite Ha, Ht.
  destruct (get_property (agents data) a) as [agent|key|] eqn:Hget.
  - apply get_property_Own in Hget as Hagent.
    destruct (canUse agent) as [tools|] eqn:Htools.
    + destruct (List.find (matches t processed) tools) as [m|] eqn:Hfind.
      * apply List.find_some in Hfind as [Hin Hm].
        apply matches_true in Hm as (r & Hmt & Hmr & Hrne & Hrp).
        rewrite Hmr. simpl. destruct r as [|c r]; [done|]. simpl.
        right. split; [done|]. eexists; split; [reflexivity|].
        split; [|done].
        exists a, t, agent, tools, m. rewrite list_elem_of_In. done.
      * left. split; [done|]. split; [done|].
        intros r (a' & t' & agent' & tools' & tool & Ha' & Ht' & Hagent'
                  & Htools' & Hin & Htool & Hr' & Hrne).
        simplify_eq.
        destruct (decide (r ∈ processed)) as [|Hnotin]; [done|].
        pose proof (List.find_none _ _ Hfind tool) as Hnone.
        rewrite <- list_elem_of_In in Hnone. specialize (Hnone Hin).
        assert (matches (cu_toolId tool) processed tool = true) as Hyes
          by (apply matches_true; eauto).
        congruence.
    + left. split; [done|]. split; [done|].
      intros r (a' & t' & agent' & tools' & tool & Ha' & Ht' & Hagent'
                & Htools' & _).
      simplify_eq.
  - left. split; [done|]. split; [done|].
    apply get_property_Inherited in Hget as (Hnone & _).
    intros r (a' & t' & agent' & tools' & tool & Ha' & Ht' & Hagent' & _).
    simplify_eq.
  - by destruct (Hknown eq_refl a Ha).
Qed.












(** C3, where the code and the claim part ways. An id that a node already
    holds is not recorded as consumed: the updater returns a node with a
    relationship id before anything is added to [processedRelationships].
    So when a node holds the id [r] of its agent and tool, and [r] is the
    first entry of that agent's [canUse] list, a new node for the same agent
    and tool receives [r] again, whatever other ids the list offers after
    it: the same server-returned id is on two nodes. *)
Theorem retained_relationship_id_is_given_again
    (data : GraphDefinition) (kept fresh : Node) (a t r : str)
    (agent : AgentDefinition) (tool : CanUseItem)
    (others : list CanUseItem) :
  n_type kept = Some MCP ->
  agentId (n_data kept) = Some a -> toolId (n_data kept) = Some t ->
  relationshipId (n_data kept) = Some r ->
  awaits_relationship fresh = true ->
  agentId (n_data fresh) = Some a -> toolId (n_data fresh) = Some t ->
  agents data !! a = Some agent -> canUse agent = Some (tool :: others) ->
  cu_toolId tool = t -> agentToolRelationId tool = Some r -> r <> [] ->
  reconcileRelationshipIds data [kept; fresh]
  = Some [kept; with_relationshipId fresh (Some r)]
  /\ has_relationship kept r
  /\ has_relationship (with_relationshipId fresh (Some r)) r.
Proof.
  intros Hktype Hka Hkt Hkr Haw Hfa Hft Hagent Htools Htool Hrel Hr.
  split_and!; [|done|done].
  pose proof Haw as Haw'. unfold awaits_relationship in Haw'.
  rewrite !andb_true_iff, negb_true_iff in Haw'.
  destruct Haw' as (((Hftype & Hta) & Htt) & Hfrel).
  unfold reconcileRelationshipIds. simpl.
  assert (reconcileNode data ∅ kept = Some (kept, ∅)) as ->.
  { unfold reconcileNode.
    rewrite bool_decide_eq_true_2 by done.
    rewrite Hka, Hkt, Hkr, <- Hfa, <- Hft, Hta, Htt. simpl.
    by destruct r. }
  assert (reconcileNode data ∅ fresh
          = Some (with_relationshipId fresh (Some r), {[ r ]} ∪ ∅)) as ->.
  { unfold reconcileNode. rewrite Hftype, Hta, Htt, Hfrel. simpl.
    rewrite Hfa, Hft.
    apply get_property_Own in Hagent. rewrite Hagent, Htools. simpl.
    assert (matches t ∅ tool = true) as ->.
    { apply matches_true. exists r. by split_and!. }
    rewrite Hrel. by destruct r. }
  done.
Qed.

(** *** The save protocol *)

Section SubmitFacts.
Variables (graph : option GraphDefinition) (tenantId projectId : str)
  (nodes : list Node) (edges : list Edge) (metadata : Metadata)
  (dataComponentLookup : DataComponentLookup)
  (artifactComponentLookup : ArtifactComponentLookup)
  (agentToolConfigLookup : AgentToolConfigLookup)
  (toolLookup : gmap str MCPTool)
  (currentNodes : list Node).

(** C5. When the save operation returns a failure, [onSubmit] parses the
    returned error, stores the summary and shows an error notification with
    the summary's message (or the validation-errors text when there is
    none); when the parse throws it logs what was thrown and shows the
    generic failure notification; and whatever the parser and the message
    helper do, [onSubmit] returns normally. *)
Theorem onSubmit_failure_is_reported
    (warningMessage : option str) (serializedData : GraphDefinition)
    (error : RawError) :
  detectOrphanedToolsAndGetWarning nodes agentToolConfigLookup toolLookup
  = inr warningMessage ->
  serializeGraphData nodes edges metadata dataComponentLookup
    artifactComponentLookup agentToolConfigLookup = inr serializedData ->
  saveGraph tenantId projectId serializedData (graph_id graph)
  = inr (SaveFailure error) ->
  let run :=
    onSubmit graph tenantId projectId nodes edges metadata
      dataComponentLookup artifactComponentLookup agentToolConfigLookup
      toolLookup currentNodes in
  let warned :=
    if truthy warningMessage
    then [ToastWarning (default [] warningMessage)] else [] in
  (forall summary message,
     parseGraphValidationErrors error = inr summary ->
     getErrorSummaryMessage summary = inr message ->
     run = (warned
            ++ [SetErrors summary;
                ToastError
                  (if truthy message then default [] message
                   else lit "Failed to save graph - validation errors found")],
            inr tt))
  /\ (forall reason,
        parseGraphValidationErrors error = inl reason ->
        run = (warned
               ++ [ConsoleError (lit "Failed to parse validation errors:")
                     reason;
                   ToastError (lit "Failed to save graph")],
               inr tt))
  /\ (forall summary reason,
        parseGraphValidationErrors error = inr summary ->
        getErrorSummaryMessage summary = inl reason ->
        run = (warned
               ++ [SetErrors summary;
                   ConsoleError (lit "Failed to parse validation errors:")
                     reason;
                   ToastError (lit "Failed to save graph")],
               inr tt))
  /\ run.2 = inr tt.
Proof.
  intros Hdetect Hserialize Hsave run warned. subst run warned.
  unfold onSubmit. rewrite Hdetect. simpl.
  destruct (truthy warningMessage); simpl; rewrite Hserialize; simpl;
    rewrite Hsave; simpl.
  all: destruct (parseGraphValidationErrors error) as [reason|summary]
         eqn:Hparse;
    simpl;
    [|destruct (getErrorSummaryMessage summary) as [reason|message]
        eqn:Hmessage];
    simpl; split_and!; intros; simplify_eq;
    repeat match goal with
           | H1 : ?t = _, H2 : ?t = _ |- _ => rewrite H1 in H2
           end;
    simplify_eq; done.
Qed.

Abbreviation submitted :=
  (onSubmit graph tenantId projectId nodes edges metadata
     dataComponentLookup artifactComponentLookup agentToolConfigLookup
     toolLookup currentNodes).

(** Before the save operation has returned, [onSubmit] has at most shown
    the orphaned-tools warning. *)
Lemma onSubmit_before_save_returns :
  (forall warningMessage serializedData res,
     detectOrphanedToolsAndGetWarning nodes agentToolConfigLookup toolLookup
     = inr warningMessage ->
     serializeGraphData nodes edges metadata dataComponentLookup
       artifactComponentLookup agentToolConfigLookup = inr serializedData ->
     saveGraph tenantId projectId serializedData (graph_id graph) <> inr res) ->
  forall e, e ∈ submitted.1 -> exists message, e = ToastWarning message.
Proof.
  intros Hnot e. unfold onSubmit.
  destruct (detectOrphanedToolsAndGetWarning _ _ _) as [?|warningMessage]
    eqn:Hdetect; simpl; [by intros ?%elem_of_nil|].
  destruct (serializeGraphData _ _ _ _ _ _) as [?|serializedData]
    eqn:Hserialize; simpl.
  { destruct (truthy warningMessage); simpl;
      [intros ->%list_elem_of_singleton; eauto | by intros ?%elem_of_nil]. }
  destruct (saveGraph _ _ _ _) as [?|res] eqn:Hsave; simpl.
  { destruct (truthy warningMessage); simpl;
      [intros ->%list_elem_of_singleton; eauto | by intros ?%elem_of_nil]. }
  by destruct (Hnot warningMessage serializedData res).
Qed.

Lemma onSubmit_success_effects
    (warningMessage : option str) (serializedData : GraphDefinition)
    (data : option GraphDefinition) :
  detectOrphanedToolsAndGetWarning nodes agentToolConfigLookup toolLookup
  = inr warningMessage ->
  serializeGraphData nodes edges metadata dataComponentLookup
    artifactComponentLookup agentToolConfigLookup = inr serializedData ->
  saveGraph tenantId projectId serializedData (graph_id graph)
  = inr (SaveSuccess data) ->
  MarkSaved ∈ submitted.1 /\ ClearErrors ∈ submitted.1.
Proof.
  intros Hdetect Hserialize Hsave.
  unfold onSubmit. rewrite Hdetect. simpl.
  destruct (truthy warningMessage); simpl; rewrite Hserialize; simpl;
    rewrite Hsave; simpl.
  all: match goal with
       | |- context [bind ?m ?f] => destruct (bind m f) as [es r]
       end; simpl; set_solver.
Qed.

Lemma onSubmit_failure_effects
    (warningMessage : option str) (serializedData : GraphDefinition)
    (error : RawError) :
  detectOrphanedToolsAndGetWarning nodes agentToolConfigLookup toolLookup
  = inr warningMessage ->
  serializeGraphData nodes edges metadata dataComponentLookup
    artifactComponentLookup agentToolConfigLookup = inr serializedData ->
  saveGraph tenantId projectId serializedData (graph_id graph)
  = inr (SaveFailure error) ->
  forall e, e ∈ submitted.1 ->
    (exists message, e = ToastWarning message)
    \/ (exists summary, e = SetErrors summary
                        /\ parseGraphValidationErrors error = inr summary)
    \/ (exists label reason, e = ConsoleError label reason)
    \/ (exists message, e = ToastError message).
Proof.
  intros Hdetect Hserialize Hsave e.
  unfold onSubmit. rewrite Hdetect. simpl.
  destruct (truthy warningMessage); simpl; rewrite Hserialize; simpl;
    rewrite Hsave; simpl.
  all: destruct (parseGraphValidationErrors error) as [reason|summary]
         eqn:Hparse;
    simpl;
    [|destruct (getErrorSummaryMessage summary) as [reason|message]];
    simpl.
  all: rewrite ?elem_of_cons, elem_of_nil; intros Hin.
  all: repeat (destruct Hin as [->|Hin]; [eauto 10|]); done.
Qed.

(** C6. [markSaved] and [clearErrors] are invoked exactly when the save
    operation was reached and returned success. When it returns a failure
    neither is invoked, and the only summary stored is the one parsed from
    the returned error. *)
Theorem markSaved_iff_save_succeeded :
  let succeeded :=
    exists warningMessage serializedData data,
      detectOrphanedToolsAndGetWarning nodes agentToolConfigLookup toolLookup
      = inr warningMessage
      /\ serializeGraphData nodes edges metadata dataComponentLookup
           artifactComponentLookup agentToolConfigLookup
         = inr serializedData
      /\ saveGraph tenantId projectId serializedData (graph_id graph)
         = inr (SaveSuccess data) in
  ((MarkSaved ∈ submitted.1) <-> succeeded)
  /\ ((ClearErrors ∈ submitted.1) <-> succeeded)
  /\ (forall warningMessage serializedData error,
        detectOrphanedToolsAndGetWarning nodes agentToolConfigLookup
          toolLookup = inr warningMessage ->
        serializeGraphData nodes edges metadata dataComponentLookup
          artifactComponentLookup agentToolConfigLookup
        = inr serializedData ->
        saveGraph tenantId projectId serializedData (graph_id graph)
        = inr (SaveFailure error) ->
        (MarkSaved ∉ submitted.1) /\ (ClearErrors ∉ submitted.1)
        /\ forall summary,
             SetErrors summary ∈ submitted.1 ->
             parseGraphValidationErrors error = inr summary).
Proof.
  intros succeeded.
  assert (Hfail : forall warningMessage serializedData error,
    detectOrphanedToolsAndGetWarning nodes agentToolConfigLookup toolLookup
    = inr warningMessage ->
    serializeGraphData nodes edges metadata dataComponentLookup
      artifactComponentLookup agentToolConfigLookup = inr serializedData ->
    saveGraph tenantId projectId serializedData (graph_id graph)
    = inr (SaveFailure error) ->
    (MarkSaved ∉ submitted.1) /\ (ClearErrors ∉ submitted.1)
    /\ forall summary, SetErrors summary ∈ submitted.1 ->
                       parseGraphValidationErrors error = inr summary).
  { intros w sd error Hdetect Hserialize Hsave.
    pose proof (onSubmit_failure_effects w sd error Hdetect Hserialize Hsave)
      as Heff.
    split_and!.
    - intros Hin. destruct (Heff _ Hin)
        as [(? & ?)|[(? & ? & _)|[(? & ? & ?)|(? & ?)]]]; discriminate.
    - intros Hin. destruct (Heff _ Hin)
        as [(? & ?)|[(? & ? & _)|[(? & ? & ?)|(? & ?)]]]; discriminate.
    - intros summary Hin. destruct (Heff _ Hin)
        as [(? & ?)|[(? & ? & ?)|[(? & ? & ?)|(? & ?)]]]; simplify_eq.
      done. }
  assert (Honly : forall e, e ∈ submitted.1 ->
            (forall message, e <> ToastWarning message) ->
            (forall w sd error,
               detectOrphanedToolsAndGetWarning nodes agentToolConfigLookup
                 toolLookup = inr w ->
               serializeGraphData nodes edges metadata dataComponentLookup
                 artifactComponentLookup agentToolConfigLookup = inr sd ->
               saveGraph tenantId projectId sd (graph_id graph)
               = inr (SaveFailure error) -> e ∉ submitted.1) ->
            succeeded).
  { intros e Hin Hnowarn Hnofail.
    destruct (detectOrphanedToolsAndGetWarning nodes agentToolConfigLookup
                toolLookup) as [?|w] eqn:Hdetect.
    { destruct (onSubmit_before_save_returns) with (e := e) as [m ->];
        [congruence | done | by destruct (Hnowarn m)]. }
    destruct (serializeGraphData nodes edges metadata dataComponentLookup
                artifactComponentLookup agentToolConfigLookup)
      as [?|sd] eqn:Hserialize.
    { destruct (onSubmit_before_save_returns) with (e := e) as [m ->];
        [congruence | done | by destruct (Hnowarn m)]. }
    destruct (saveGraph tenantId projectId sd (graph_id graph))
      as [?|[data|error]] eqn:Hsave.
    - destruct (onSubmit_before_save_returns) with (e := e) as [m ->];
        [intros; simplify_eq; congruence | done | by destruct (Hnowarn m)].
    - exists w, sd, data. done.
    - by destruct (Hnofail w sd error). }
  split_and!; [split|split|exact Hfail].
  - intros Hin. apply (Honly MarkSaved Hin); [done|].
    intros w sd error ? ? ?. by destruct (Hfail w sd error) as (? & _).
  - intros (w & sd & data & ? & ? & ?).
    by destruct (onSubmit_success_effects w sd data).
  - intros Hin. apply (Honly ClearErrors Hin); [done|].
    intros w sd error ? ? ?. by destruct (Hfail w sd error) as (_ & ? & _).
  - intros (w & sd & data & ? & ? & ?).
    by destruct (onSubmit_success_effects w sd data).
Qed.

End SubmitFacts.

End FlowFacts.

(** *** Reconciliation at sample inputs *)

(** Where the response lists fewer matching ids than there are new nodes,
    the last ones stay without: of three new nodes for agent [a1] and tool
    [t1], with two matching ids in the response, the third has no
    relationship id before the update and none after it. *)
Lemma third_new_node_receives_no_id :
  reconcileRelationshipIds sample_saved
    [sample_mcp_node "n1" "a1" "t1" None;
     sample_mcp_node "n2" "a1" "t1" None;
     sample_mcp_node "n3" "a1" "t1" None]
  = Some [with_relationshipId (sample_mcp_node "n1" "a1" "t1" None)
            (Some (lit "r1"));
          with_relationshipId (sample_mcp_node "n2" "a1" "t1" None)
            (Some (lit "r2"));
          sample_mcp_node "n3" "a1" "t1" None]
  /\ awaits_relationship (sample_mcp_node "n3" "a1" "t1" None) = true
  /\ relationshipId (n_data (sample_mcp_node "n3" "a1" "t1" None)) = None.
Proof. split_and!; by vm_compute. Qed.

(** A new node whose agent the response does not list makes the updater
    throw, whatever the other nodes are owed. *)
Lemma unknown_agent_throws :
  reconcileRelationshipIds sample_saved
    [sample_mcp_node "n1" "a1" "t1" None;
     sample_mcp_node "n2" "a2" "t1" None]
  = None.
Proof. by vm_compute. Qed.

(** A new node whose agent id the response does not list, but which names
    a member of [Object.prototype], does not make the updater throw: the
    inherited member is read, it has no [canUse], and the node is left as it
    is. *)
Lemma prototype_member_agent_is_left_alone :
  reconcileRelationshipIds sample_saved
    [sample_mcp_node "n1" "constructor" "t1" None]
  = Some [sample_mcp_node "n1" "constructor" "t1" None].
Proof. by vm_compute. Qed.

(** *** The theorems at sample inputs *)

Lemma connection_inference_witness :
  e_type (@onConnectWrapped_newEdge sample_ids sample_connection) = Some A2A
  /\ e_data (@onConnectWrapped_newEdge sample_ids sample_connection)
     = Some {| relationships := transferSourceToTargetOnly |}.
Proof.
  destruct (@connection_inference sample_ids sample_connection)
    as (_ & _ & Ha2a & _).
  apply Ha2a.
  - intros Heq. vm_compute in Heq. discriminate Heq.
  - left. reflexivity.
  - right. reflexivity.
Defined.

Lemma edge_id_symmetric_witness :
  getEdgeId (lit "agent-2") (lit "agent-1")
  = getEdgeId (lit "agent-1") (lit "agent-2")
  /\ getEdgeId (lit "agent-2") (lit "agent-1") = lit "edge-agent-1-agent-2".
Proof.
  destruct (@edge_id_symmetric sample_ids (lit "agent-2") (lit "agent-1"))
    as (Hdistinct & _).
  destruct Hdistinct as (Hsym & _).
  - intros Heq. vm_compute in Heq. discriminate Heq.
  - split; [exact Hsym | reflexivity].
Defined.

Lemma retained_relationship_id_is_given_again_witness :
  reconcileRelationshipIds sample_saved
    [sample_mcp_node "n1" "a1" "t1" (Some (lit "r1"));
     sample_mcp_node "n2" "a1" "t1" None]
  = Some [sample_mcp_node "n1" "a1" "t1" (Some (lit "r1"));
          with_relationshipId (sample_mcp_node "n2" "a1" "t1" None)
            (Some (lit "r1"))].
Proof.
  destruct (retained_relationship_id_is_given_again sample_saved
              (sample_mcp_node "n1" "a1" "t1" (Some (lit "r1")))
              (sample_mcp_node "n2" "a1" "t1" None)
              (lit "a1") (lit "t1") (lit "r1")
              {| canUse := Some [sample_canUse "t1" "r1";
                                 sample_canUse "t1" "r2"] |}
              (sample_canUse "t1" "r1") [sample_canUse "t1" "r2"]
              eq_refl eq_refl eq_refl eq_refl eq_refl eq_refl eq_refl
              eq_refl eq_refl eq_refl eq_refl)
    as (Hgiven & _).
  - intros Heq. vm_compute in Heq. discriminate Heq.
  - exact Hgiven.
Defined.


Lemma onSubmit_failure_is_reported_witness :
  @onSubmit sample_failing_domain None (lit "tenant") (lit "project")
    [] [] tt tt tt tt ∅ []
  = ([@SetErrors sample_failing_domain (lit "agent a1 has no name");
      @ToastError sample_failing_domain (lit "agent a1 has no name")],
     inr tt).
Proof.
  destruct (@onSubmit_failure_is_reported sample_failing_domain None
              (lit "tenant") (lit "project") [] [] tt tt tt tt ∅ []
              None {| g_id := None; agents := ∅ |}
              (lit "agent a1 has no name") eq_refl eq_refl eq_refl)
    as (Hparsed & _).
  exact (Hparsed (lit "agent a1 has no name")
           (Some (lit "agent a1 has no name")) eq_refl eq_refl).
Defined.

Lemma markSaved_iff_save_succeeded_witness :
  (@MarkSaved sample_failing_domain
   ∉ (@onSubmit sample_failing_domain None (lit "tenant") (lit "project")
        [] [] tt tt tt tt ∅ []).1)
  /\ (@ClearErrors sample_failing_domain
      ∉ (@onSubmit sample_failing_domain None (lit "tenant") (lit "project")
           [] [] tt tt tt tt ∅ []).1).
Proof.
  destruct (@markSaved_iff_save_succeeded sample_failing_domain None
              (lit "tenant") (lit "project") [] [] tt tt tt tt ∅ [])
    as (_ & _ & Hfailed).
  destruct (Hfailed None {| g_id := None; agents := ∅ |}
              (lit "agent a1 has no name") eq_refl eq_refl eq_refl)
    as (Hmark & Hclear & _).
  split; assumption.
Defined.

End GraphFacts.

(** ** The API configuration module *)

Module ApiFacts.
Import Js Errors Api Samples.

Section RequestFacts.
Context `{Defaults} `{Platform}.

(** *** Base URLs *)

Lemma calls_cached (get : Env -> State -> str * State) (cached : str)
    (envs : list Env) (st : State) :
  (forall env, get env st = (cached, st)) ->
  calls get envs st = (replicate (length envs) cached, st).
Proof.
  intros Hget. induction envs as [|env envs IH]; simpl; [done|].
  by rewrite Hget, IH.
Qed.

Lemma getManageApiUrl_cached (env : Env) (st : State) (cached : str) :
  INKEEP_AGENTS_MANAGE_API_URL st = Some cached ->
  getManageApiUrl env st = (cached, st).
Proof. intros Hc. unfold getManageApiUrl. by rewrite Hc. Qed.

Lemma getRunApiUrl_cached (env : Env) (st : State) (cached : str) :
  INKEEP_AGENTS_RUN_API_URL st = Some cached ->
  getRunApiUrl env st = (cached, st).
Proof. intros Hc. unfold getRunApiUrl. by rewrite Hc. Qed.

Lemma truthy_configured (v : option str) (u : str) :
  v = Some u -> u <> [] -> truthy v = true /\ default [] v = u.
Proof. intros -> Hu. by destruct u. Qed.

Lemma getManageApiUrl_falls_back (env : Env) (st : State) :
  INKEEP_AGENTS_MANAGE_API_URL st = None ->
  hasWarnedManageApi st = false ->
  truthy (env !! lit "INKEEP_AGENTS_MANAGE_API_URL") = false ->
  exists st',
    getManageApiUrl env st = (DEFAULT_INKEEP_AGENTS_MANAGE_API_URL, st')
    /\ INKEEP_AGENTS_MANAGE_API_URL st'
       = Some DEFAULT_INKEEP_AGENTS_MANAGE_API_URL
    /\ warnings st'
       = warnings st
         ++ [fallback_warning (lit "INKEEP_AGENTS_MANAGE_API_URL")
               DEFAULT_INKEEP_AGENTS_MANAGE_API_URL].
Proof.
  intros Hurl Hwarned Hunset. unfold getManageApiUrl.
  rewrite Hurl, Hunset, Hwarned. simpl. eexists; split_and!; done.
Qed.

Lemma getManageApiUrl_configured (env : Env) (st : State) (configured : str) :
  INKEEP_AGENTS_MANAGE_API_URL st = None ->
  env !! lit "INKEEP_AGENTS_MANAGE_API_URL" = Some configured ->
  configured <> [] ->
  exists st',
    getManageApiUrl env st = (configured, st')
    /\ INKEEP_AGENTS_MANAGE_API_URL st' = Some configured
    /\ warnings st' = warnings st.
Proof.
  intros Hurl Hset Hne. unfold getManageApiUrl.
  destruct (truthy_configured _ _ Hset Hne) as [Ht Hd].
  rewrite Hurl, Ht, Hd. simpl. eexists; split_and!; done.
Qed.

Lemma getRunApiUrl_falls_back (env : Env) (st : State) :
  INKEEP_AGENTS_RUN_API_URL st = None ->
  hasWarnedRunApi st = false ->
  truthy (env !! lit "INKEEP_AGENTS_RUN_API_URL") = false ->
  exists st',
    getRunApiUrl env st = (DEFAULT_INKEEP_AGENTS_RUN_API_URL, st')
    /\ INKEEP_AGENTS_RUN_API_URL st' = Some DEFAULT_INKEEP_AGENTS_RUN_API_URL
    /\ warnings st'
       = warnings st
         ++ [fallback_warning (lit "INKEEP_AGENTS_RUN_API_URL")
               DEFAULT_INKEEP_AGENTS_RUN_API_URL].
Proof.
  intros Hurl Hwarned Hunset. unfold getRunApiUrl.
  rewrite Hurl, Hunset, Hwarned. simpl. eexists; split_and!; done.
Qed.

Lemma getRunApiUrl_configured (env : Env) (st : State) (configured : str) :
  INKEEP_AGENTS_RUN_API_URL st = None ->
  env !! lit "INKEEP_AGENTS_RUN_API_URL" = Some configured ->
  configured <> [] ->
  exists st',
    getRunApiUrl env st = (configured, st')
    /\ INKEEP_AGENTS_RUN_API_URL st' = Some configured
    /\ warnings st' = warnings st.
Proof.
  intros Hurl Hset Hne. unfold getRunApiUrl.
  destruct (truthy_configured _ _ Hset Hne) as [Ht Hd].
  rewrite Hurl, Ht, Hd. simpl. eexists; split_and!; done.
Qed.

(** C9. Starting from a state in which the URL has not been resolved and
    the warning not given (as when the module has just been loaded), any
    number of calls of [getManageApiUrl] made while its environment variable
    is not set (absent or empty) all return the default URL and write the
    fallback warning exactly once, at the first call; made while the variable
    is set, they all return the configured URL and write no warning. The
    same holds of [getRunApiUrl] with its own variable, default and flag. *)
Theorem api_url_fallback_warns_once (envs : list Env) (st : State) :
  (INKEEP_AGENTS_MANAGE_API_URL st = None ->
   hasWarnedManageApi st = false ->
   let after := calls getManageApiUrl envs st in
   (Forall (fun env =>
              truthy (env !! lit "INKEEP_AGENTS_MANAGE_API_URL") = false) envs ->
    after.1 = replicate (length envs) DEFAULT_INKEEP_AGENTS_MANAGE_API_URL
    /\ warnings after.2
       = warnings st
         ++ match envs with
            | [] => []
            | _ :: _ =>
                [fallback_warning (lit "INKEEP_AGENTS_MANAGE_API_URL")
                   DEFAULT_INKEEP_AGENTS_MANAGE_API_URL]
            end)
   /\ (forall configured,
         configured <> [] ->
         Forall (fun env =>
                   env !! lit "INKEEP_AGENTS_MANAGE_API_URL" = Some configured)
           envs ->
         after.1 = replicate (length envs) configured
         /\ warnings after.2 = warnings st))
  /\ (INKEEP_AGENTS_RUN_API_URL st = None ->
      hasWarnedRunApi st = false ->
      let after := calls getRunApiUrl envs st in
      (Forall (fun env =>
                 truthy (env !! lit "INKEEP_AGENTS_RUN_API_URL") = false) envs ->
       after.1 = replicate (length envs) DEFAULT_INKEEP_AGENTS_RUN_API_URL
       /\ warnings after.2
          = warnings st
            ++ match envs with
               | [] => []
               | _ :: _ =>
                   [fallback_warning (lit "INKEEP_AGENTS_RUN_API_URL")
                      DEFAULT_INKEEP_AGENTS_RUN_API_URL]
               end)
      /\ (forall configured,
            configured <> [] ->
            Forall (fun env =>
                      env !! lit "INKEEP_AGENTS_RUN_API_URL" = Some configured)
              envs ->
            after.1 = replicate (length envs) configured
            /\ warnings after.2 = warnings st)).
Proof.
  split.
  - intros Hurl Hwarned after. subst after.
    destruct envs as [|env envs']; [by rewrite app_nil_r|].
    split.
    + intros [Hunset _]%Forall_cons. simpl.
      destruct (getManageApiUrl_falls_back env st Hurl Hwarned Hunset)
        as (st' & -> & Hurl' & Hw).
      erewrite calls_cached by (intros; by apply getManageApiUrl_cached).
      done.
    + intros configured Hne [Hset _]%Forall_cons. simpl.
      destruct (getManageApiUrl_configured env st configured Hurl Hset Hne)
        as (st' & -> & Hurl' & Hw).
      erewrite calls_cached by (intros; by apply getManageApiUrl_cached).
      done.
  - intros Hurl Hwarned after. subst after.
    destruct envs as [|env envs']; [by rewrite app_nil_r|].
    split.
    + intros [Hunset _]%Forall_cons. simpl.
      destruct (getRunApiUrl_falls_back env st Hurl Hwarned Hunset)
        as (st' & -> & Hurl' & Hw).
      erewrite calls_cached by (intros; by apply getRunApiUrl_cached).
      done.
    + intros configured Hne [Hset _]%Forall_cons. simpl.
      destruct (getRunApiUrl_configured env st configured Hurl Hset Hne)
        as (st' & -> & Hurl' & Hw).
      erewrite calls_cached by (intros; by apply getRunApiUrl_cached).
      done.
Qed.

(** *** Requests *)


(** What a response outside the 2xx range makes the [try] block throw. *)
Lemma attempt_not_ok (response : Response) :
  ok response = false ->
  attempt (inr response)
  = match r_json response with
    | inl _ =>
        inl (ThrownApiError
               {| error := Some unknown_error; status := r_status response |})
    | inr JNull => inl (ThrownError null_read_message)
    | inr parsed =>
        let e := match parsed with
                 | JObj members => member (lit "error") members
                 | _ => None
                 end in
        inl (ThrownApiError
               {| error := if to_boolean e then e else Some unknown_error;
                  status := r_status response |})
    end.
Proof.
  intros Hok. unfold attempt. rewrite Hok. simpl.
  destruct (r_json response) as [?|[]]; done.
Qed.


(** C7, where the code and the claim part ways. For a response outside the
    2xx range whose body is the JSON value [null], reading [errorData.error]
    throws a [TypeError] inside the [try] block, and the catch-all turns it
    into an [ApiError] with code ['internal_server_error'] and status 500:
    the response's status is not carried, and the payload is neither the
    body's nor the ['unknown'] fallback. *)
Theorem null_body_hides_response_status
    (env : Env) (baseUrl endpoint : str) (options : RequestInit)
    (response : Response) :
  fetch (request env baseUrl endpoint options) = inr response ->
  ok response = false ->
  r_json response = inr JNull ->
  (makeApiRequestInternal env baseUrl endpoint options).2
  = inl (ThrownApiError
           {| error := Some (internal_server_error null_read_message);
              status := 500 |}).
Proof.
  intros Hfetch Hok Hjson. unfold makeApiRequestInternal. simpl.
  by rewrite Hfetch, (attempt_not_ok response Hok), Hjson.
Qed.

(** *** The bearer token *)

(** For management requests the token is the manage bypass secret, and
    what the spread of the caller's headers copied under that name stands
    when the secret is not set. *)
Lemma management_request_authorization
    (env : Env) (st : State) (endpoint : str) (options : RequestInit) :
  authorization (makeManagementApiRequest env st endpoint options).1.1
  = if truthy (env !! lit "INKEEP_AGENTS_MANAGE_API_BYPASS_SECRET")
    then Some (lit "Bearer "
               ++ default [] (env !! lit "INKEEP_AGENTS_MANAGE_API_BYPASS_SECRET"))
    else match spread_headers (headers options) !! lit "Authorization" with
         | Some (HeaderString s) => Some s
         | _ => None
         end.
Proof.
  unfold makeManagementApiRequest, authorization.
  destruct (getManageApiUrl env st) as [baseUrl st']. simpl.
  unfold defaultHeaders.
  destruct (truthy _); simpl; [by rewrite lookup_insert_eq|].
  rewrite lookup_union_l; [done|].
  apply lookup_singleton_ne. by vm_compute.
Qed.

(** C8, at an input where the code and the claim part ways. A run request
    made while only the run bypass secret is set carries no [Authorization]
    header; one made while only the manage bypass secret is set carries the
    manage secret as its bearer token. *)
Theorem run_request_uses_manage_secret (st : State) (endpoint : str) :
  authorization
    (makeAgentsRunApiRequest env_run_secret_only st endpoint no_options).1.1
  = None
  /\ authorization
       (makeAgentsRunApiRequest env_manage_secret_only st endpoint
          no_options).1.1
     = Some (lit "Bearer manage-secret").
Proof.
  unfold makeAgentsRunApiRequest.
  split; destruct (getRunApiUrl _ st) as [baseUrl st']; by vm_compute.
Qed.

End RequestFacts.

(** *** Requests at sample inputs *)

(** *** The theorems at sample inputs *)

Lemma api_url_fallback_warns_once_witness :
  (@calls (@getManageApiUrl sample_defaults) [∅; ∅; ∅] initial).1
  = replicate 3 (lit "http://localhost:3002")
  /\ warnings (@calls (@getManageApiUrl sample_defaults) [∅; ∅; ∅] initial).2
     = [fallback_warning (lit "INKEEP_AGENTS_MANAGE_API_URL")
          (lit "http://localhost:3002")].
Proof.
  destruct (@api_url_fallback_warns_once sample_defaults [∅; ∅; ∅] initial)
    as (Hmanage & _).
  destruct (Hmanage eq_refl eq_refl) as (Hunset & _).
  apply Hunset. repeat constructor.
Defined.

Lemma null_body_hides_response_status_witness :
  r_status
    {| r_status := 404;
       r_contentType := Some (lit "application/json");
       r_json := inr JNull;
       r_text := inl (ThrownError (lit "body stream already read")) |}
  = 404%Z
  /\ (@makeManagementApiRequest sample_defaults sample_null_body_platform
        ∅ initial (lit "tenants/t/graphs/g") no_options).1.2
     = inl (ThrownApiError
              {| error :=
                   Some (internal_server_error
                           (lit "Cannot read properties of null (reading 'error')"));
                 status := 500 |}).
Proof.
  split; [reflexivity|].
  exact (@null_body_hides_response_status sample_null_body_platform ∅
           (lit "http://localhost:3002") (lit "tenants/t/graphs/g")
           no_options _ eq_refl eq_refl eq_refl).
Defined.


End ApiFacts.

(** * Further properties of graph.tsx *)

Module GraphMore.
Import Js Errors Graph JsFacts Samples GraphFacts.

(** ** Edge ids *)

Lemma app_sep_inj (sep : N) (l1 r1 l2 r2 : str) :
  sep ∉ l1 -> sep ∉ l2 ->
  l1 ++ sep :: r1 = l2 ++ sep :: r2 -> l1 = l2 /\ r1 = r2.
Proof.
  revert l2; induction l1 as [|c l1 IH]; intros [|c2 l2] H1 H2 Heq;
    simpl in *.
  - by injection Heq as ->.
  - injection Heq as <- _. destruct H2. by left.
  - injection Heq as -> _. destruct H1. by left.
  - injection Heq as -> Heq.
    apply not_elem_of_cons in H1 as [_ H1].
    apply not_elem_of_cons in H2 as [_ H2].
    by destruct (IH l2 H1 H2 Heq) as [-> ->].
Qed.

Lemma app_length_inj (l1 r1 l2 r2 : str) :
  length l1 = length l2 -> l1 ++ r1 = l2 ++ r2 -> l1 = l2 /\ r1 = r2.
Proof.
  intros Hlen Heq. split.
  - apply (f_equal (take (length l1))) in Heq.
    rewrite take_app_length in Heq. rewrite Hlen in Heq.
    by rewrite take_app_length in Heq.
  - apply (f_equal (drop (length l1))) in Heq.
    rewrite drop_app_length in Heq. rewrite Hlen in Heq.
    by rewrite drop_app_length in Heq.
Qed.

Lemma sort2_members (a b : str) :
  sort2 a b = (a, b) \/ sort2 a b = (b, a).
Proof. unfold sort2. destruct (str_ltb b a); auto. Qed.

Lemma getEdgeId_sorted (a b c d : str) :
  ((hyphen ∉ a) /\ (hyphen ∉ b) /\ (hyphen ∉ c) /\ (hyphen ∉ d))
  \/ (length a = length b /\ length b = length c /\ length c = length d) ->
  getEdgeId a b = getEdgeId c d -> sort2 a b = sort2 c d.
Proof.
  intros Hids. unfold getEdgeId.
  destruct (sort2 a b) as [low high] eqn:Hab.
  destruct (sort2 c d) as [low' high'] eqn:Hcd.
  intros Heq. apply app_inv_head in Heq.
  assert (low = low' /\ high = high') as [-> ->]; [|done].
  destruct (sort2_members a b) as [Ha|Ha], (sort2_members c d) as [Hc|Hc];
    rewrite Ha in Hab; rewrite Hc in Hcd; simplify_eq;
    destruct Hids as [(? & ? & ? & ?)|(? & ? & ?)];
    first [ by apply (app_sep_inj hyphen)
          | destruct (app_length_inj low (lit "-" ++ high)
                        low' (lit "-" ++ high')) as [-> Hr];
            [congruence | done | by simplify_eq] ].
Qed.

(** X1. [getEdgeId] identifies the unordered pair of its arguments
    whenever no id holds a hyphen, and whenever all ids have the same
    length: two pairs of such ids with the same edge id are the same pair, in
    one order or the other. *)
Theorem getEdgeId_injective (a b c d : str) :
  ((hyphen ∉ a) /\ (hyphen ∉ b) /\ (hyphen ∉ c) /\ (hyphen ∉ d))
  \/ (length a = length b /\ length b = length c /\ length c = length d) ->
  getEdgeId a b = getEdgeId c d ->
  (a = c /\ b = d) \/ (a = d /\ b = c).
Proof.
  intros Hids Heq. apply getEdgeId_sorted in Heq; [|done].
  destruct (sort2_members a b) as [Ha|Ha], (sort2_members c d) as [Hc|Hc];
    rewrite Ha, Hc in Heq; simplify_eq; auto.
Qed.

(** Without either condition two different pairs can share an edge id. *)
Lemma getEdgeId_collision :
  getEdgeId (lit "a-b") (lit "c") = getEdgeId (lit "a") (lit "b-c").
Proof. by vm_compute. Qed.

Section EdgeIds.
Context `{NodeTypeIds}.

Lemma newEdge_id (p : Connection) :
  e_id (onConnectWrapped_newEdge p)
  = if bool_decide (source p = target p)
    then lit "edge-self-" ++ source p
    else getEdgeId (source p) (target p).
Proof.
  unfold onConnectWrapped_newEdge; simpl.
  destruct (bool_decide (source p = target p)); simpl; [done|].
  repeat (destruct (_ && _); simpl; [done|]); done.
Qed.

Lemma self_loop_id_differs (s c d : str) :
  (hyphen ∉ c) -> (hyphen ∉ d) -> c <> lit "self" -> d <> lit "self" ->
  lit "edge-self-" ++ s <> getEdgeId c d.
Proof.
  intros Hc Hd Hcs Hds Heq. unfold getEdgeId in Heq.
  destruct (sort2 c d) as [low high] eqn:Hcd.
  change (lit "edge-self-" ++ s)
    with (lit "edge-" ++ (lit "self" ++ hyphen :: s)) in Heq.
  change (lit "-" ++ high) with (hyphen :: high) in Heq.
  apply app_inv_head in Heq.
  assert (hyphen ∉ lit "self") as Hself.
  { intros Hin. vm_compute in Hin.
    repeat (apply elem_of_cons in Hin as [Hin|Hin]; [discriminate Hin|]).
    by apply elem_of_nil in Hin. }
  assert (hyphen ∉ low) as Hlow
    by (destruct (sort2_members c d) as [Hm|Hm]; rewrite Hm in Hcd;
        by simplify_eq).
  destruct (app_sep_inj hyphen _ _ _ _ Hself Hlow Heq) as [Hl _].
  destruct (sort2_members c d) as [Hm|Hm]; rewrite Hm in Hcd;
    simplify_eq; congruence.
Qed.

(** X2. The id [onConnectWrapped] gives to a new edge identifies the two
    nodes it connects: when no node id holds a hyphen or is the word
    [self], two connections whose edges have the same id connect the same
    two nodes, in one direction or the other. *)
Theorem new_edge_id_identifies_endpoints (p q : Connection) :
  Forall (fun id => (hyphen ∉ id) /\ id <> lit "self")
    [source p; target p; source q; target q] ->
  e_id (onConnectWrapped_newEdge p) = e_id (onConnectWrapped_newEdge q) ->
  (source p = source q /\ target p = target q)
  \/ (source p = target q /\ target p = source q).
Proof.
  intros Hids. rewrite !newEdge_id.
  apply Forall_cons in Hids as [[Hsp Hsp'] Hids].
  apply Forall_cons in Hids as [[Htp Htp'] Hids].
  apply Forall_cons in Hids as [[Hsq Hsq'] Hids].
  apply Forall_cons in Hids as [[Htq Htq'] _].
  case_bool_decide as Hp; case_bool_decide as Hq; intros Heq.
  - apply app_inv_head in Heq. left. split; congruence.
  - by destruct (self_loop_id_differs (source p) (source q) (target q)).
  - by destruct (self_loop_id_differs (source q) (source p) (target p)).
  - apply getEdgeId_sorted in Heq; [|by left].
    destruct (sort2_members (source p) (target p)) as [Ha|Ha],
      (sort2_members (source q) (target q)) as [Hc|Hc];
      rewrite Ha, Hc in Heq; simplify_eq; auto.
Qed.

(** Two nodes one of which is called [self] can share their edge's id with
    the self-loop of the other. *)
Lemma self_loop_id_collision :
  e_id (onConnectWrapped_newEdge
          {| source := lit "self"; target := lit "x";
             sourceHandle := None; targetHandle := None |})
  = e_id (onConnectWrapped_newEdge
            {| source := lit "x"; target := lit "x";
               sourceHandle := None; targetHandle := None |}).
Proof. rewrite !newEdge_id. by vm_compute. Qed.

End EdgeIds.

(** ** Enrichment *)

Section EnrichFacts.
Context `{Domain}.










End EnrichFacts.

(** ** When the updater throws *)

Lemma reconcileNode_None (data : GraphDefinition) (processed : gset str)
    (node : Node) :
  reconcileNode data processed node = None
  <-> awaits_relationship node = true
      /\ exists agentId', agentId (n_data node) = Some agentId'
                          /\ get_property (agents data) agentId' = Undefined.
Proof.
  split.
  - intros Hnone.
    destruct (awaits_relationship node) eqn:Haw.
    + split; [done|].
      unfold awaits_relationship in Haw.
      rewrite !andb_true_iff in Haw. destruct Haw as (((_ & Ha) & _) & _).
      apply truthy_Some in Ha as (a & Ha & _).
      exists a. split; [done|].
      destruct (get_property (agents data) a) as [agent|key|] eqn:Hget;
        [| |done].
      all: assert (get_property (agents data) a <> Undefined) as Hdefined
        by (rewrite Hget; discriminate).
      all: destruct (reconcileNode_spec data processed node)
        as [(? & Hs)|[(? & Hs & _)|(? & ? & Hs & _)]];
        [|congruence..];
        intros _ a' Ha'; by simplify_eq.
    + destruct (reconcileNode_spec data processed node)
        as [(? & Hs)|[(? & Hs & _)|(? & ? & Hs & _)]]; congruence.
  - intros (Haw & a & Ha & Hagent).
    unfold awaits_relationship in Haw.
    rewrite !andb_true_iff, negb_true_iff in Haw.
    destruct Haw as (((Htype & Hta) & Htt) & Hrel).
    unfold reconcileNode. rewrite Htype, Hta, Htt, Hrel. simpl.
    rewrite Ha. apply truthy_Some in Htt as (t & -> & _).
    by rewrite Hagent.
Qed.

Lemma reconcileFrom_None (data : GraphDefinition) (nodes : list Node) :
  forall processed : gset str,
    reconcileFrom data processed nodes = None
    <-> exists node agentId',
          node ∈ nodes /\ awaits_relationship node = true
          /\ agentId (n_data node) = Some agentId'
          /\ agents data !! agentId' = None
          /\ agentId' ∉ Object_prototype_members.
Proof.
  induction nodes as [|n ns IH]; intros processed; simpl.
  - split; [done|]. by intros (? & ? & ?%elem_of_nil & _).
  - destruct (reconcileNode data processed n) as [[n' processed']|] eqn:Hn.
    + destruct (reconcileFrom data processed' ns) as [out|] eqn:Hns.
      * split; [done|].
        intros (node & a & [->|Hin]%elem_of_cons & Haw & Ha & Hagent).
        -- assert (reconcileNode data processed n = None) as Hnone.
           { apply reconcileNode_None. split; [done|].
             exists a. split; [done|]. by apply get_property_Undefined. }
           congruence.
        -- assert (reconcileFrom data processed' ns = None) as Hnone
             by (apply IH; eauto 10).
           congruence.
      * split; [|done]. intros _.
        apply IH in Hns as (node & a & Hin & ?).
        exists node, a. split; [by right | done].
    + split; [|done]. intros _.
      apply reconcileNode_None in Hn as (Haw & a & Ha & Hagent).
      apply get_property_Undefined in Hagent.
      exists n, a. split; [by left | done].
Qed.

(** X5. The updater run after a successful save throws exactly when, for
    some MCP node that carries an agent id and a tool id but no relationship
    id, [res.data.agents[agentId]] is [undefined]: the response lists no
    agent of that id, and the id names no member of [Object.prototype] (for
    such a name the member is read, has no [canUse], and the node is left as
    it is). The other nodes and the ids already given out make no
    difference. *)
Theorem reconcile_throws_iff_agent_missing
    (data : GraphDefinition) (nodes : list Node) :
  reconcileRelationshipIds data nodes = None
  <-> exists node agentId',
        node ∈ nodes /\ awaits_relationship node = true
        /\ agentId (n_data node) = Some agentId'
        /\ agents data !! agentId' = None
        /\ agentId' ∉ Object_prototype_members.
Proof. apply reconcileFrom_None. Qed.

(** ** The save protocol, on success *)

Section SubmitMore.
Context `{Domain}.
Variables (graph : option GraphDefinition) (tenantId projectId : str)
  (nodes : list Node) (edges : list Edge) (metadata : Metadata)
  (dataComponentLookup : DataComponentLookup)
  (artifactComponentLookup : ArtifactComponentLookup)
  (agentToolConfigLookup : AgentToolConfigLookup)
  (toolLookup : gmap str MCPTool)
  (currentNodes : list Node).

Abbreviation submitted :=
  (onSubmit graph tenantId projectId nodes edges metadata
     dataComponentLookup artifactComponentLookup agentToolConfigLookup
     toolLookup currentNodes).

(** The effects and the completion of [onSubmit] when the save operation
    returns success. *)
Lemma onSubmit_success_trace
    (warningMessage : option str) (serializedData : GraphDefinition)
    (data : option GraphDefinition) :
  detectOrphanedToolsAndGetWarning nodes agentToolConfigLookup toolLookup
  = inr warningMessage ->
  serializeGraphData nodes edges metadata dataComponentLookup
    artifactComponentLookup agentToolConfigLookup = inr serializedData ->
  saveGraph tenantId projectId serializedData (graph_id graph)
  = inr (SaveSuccess data) ->
  let warned :=
    if truthy warningMessage
    then [ToastWarning (default [] warningMessage)] else [] in
  let saved :=
    [ClearErrors; ToastSuccess (lit "Graph saved"); MarkSaved] in
  let navigation :=
    if negb (truthy (graph_id graph)) && truthy (graph_id data)
    then [SetMetadata (lit "id") (default [] (graph_id data));
          RouterPush (lit "/" ++ tenantId ++ lit "/projects/" ++ projectId
                      ++ lit "/graphs/" ++ default [] (graph_id data))]
    else [] in
  submitted
  = match data with
    | None => (warned ++ saved ++ navigation, inr tt)
    | Some d =>
        match reconcileRelationshipIds d currentNodes with
        | Some updated =>
            (warned ++ saved ++ SetNodes updated :: navigation, inr tt)
        | None => (warned ++ saved, inl canUse_in_undefined)
        end
    end.
Proof.
  intros Hdetect Hserialize Hsave warned saved navigation.
  subst warned saved navigation.
  unfold onSubmit. rewrite Hdetect. simpl.
  destruct (truthy warningMessage); simpl; rewrite Hserialize; simpl;
    rewrite Hsave; simpl.
  all: destruct data as [d|]; simpl;
    [destruct (reconcileRelationshipIds d currentNodes); simpl|];
    try done.
  all: destruct (negb (truthy (graph_id graph)) && _); done.
Qed.

Ltac in_trace :=
  rewrite ?elem_of_app, ?elem_of_cons, ?elem_of_nil.

Lemma not_in_warned (warningMessage : option str) (e : Effect) :
  (forall message, e <> ToastWarning message) ->
  e ∉ (if truthy warningMessage
       then [ToastWarning (default [] warningMessage)] else []).
Proof.
  intros He. destruct (truthy warningMessage); in_trace; [|tauto].
  intros [->|[]]. by destruct (He (default [] warningMessage)).
Qed.

(** X6. A save that succeeded can still make [onSubmit] reject: when
    [res.data.agents[agentId]] is [undefined] for an MCP node that awaits a
    relationship id (the response lists no agent of that id, and the id
    names no member of [Object.prototype]), the errors are cleared, the
    success toast is shown and the graph is marked saved, and then the
    error thrown by the updater escapes; the store's nodes are not updated
    and the first-save navigation does not happen. *)
Theorem onSubmit_saved_but_rejected
    (warningMessage : option str) (serializedData d : GraphDefinition)
    (node : Node) (agentId' : str) :
  detectOrphanedToolsAndGetWarning nodes agentToolConfigLookup toolLookup
  = inr warningMessage ->
  serializeGraphData nodes edges metadata dataComponentLookup
    artifactComponentLookup agentToolConfigLookup = inr serializedData ->
  saveGraph tenantId projectId serializedData (graph_id graph)
  = inr (SaveSuccess (Some d)) ->
  node ∈ currentNodes -> awaits_relationship node = true ->
  agentId (n_data node) = Some agentId' -> agents d !! agentId' = None ->
  agentId' ∉ Object_prototype_members ->
  (exists message, submitted.2 = inl (ThrownError message))
  /\ MarkSaved ∈ submitted.1
  /\ ToastSuccess (lit "Graph saved") ∈ submitted.1
  /\ (forall updated, SetNodes updated ∉ submitted.1)
  /\ (forall key value, SetMetadata key value ∉ submitted.1)
  /\ (forall url, RouterPush url ∉ submitted.1).
Proof.
  intros Hdetect Hserialize Hsave Hin Haw Ha Hagent Hproto.
  rewrite (onSubmit_success_trace warningMessage serializedData (Some d)
             Hdetect Hserialize Hsave).
  assert (reconcileRelationshipIds d currentNodes = None) as ->
    by (apply reconcileFrom_None; eauto 10).
  simpl. split_and!.
  - by eexists.
  - in_trace. tauto.
  - in_trace. tauto.
  - intros updated. in_trace.
    intros [Hw|[?|[?|[?|[]]]]]; try discriminate.
    by apply not_in_warned in Hw.
  - intros key value. in_trace.
    intros [Hw|[?|[?|[?|[]]]]]; try discriminate.
    by apply not_in_warned in Hw.
  - intros url. in_trace.
    intros [Hw|[?|[?|[?|[]]]]]; try discriminate.
    by apply not_in_warned in Hw.
Qed.

(** What the save operation returned, if it was reached. *)
Lemma save_outcome :
  (forall warningMessage serializedData res,
     detectOrphanedToolsAndGetWarning nodes agentToolConfigLookup toolLookup
     = inr warningMessage ->
     serializeGraphData nodes edges metadata dataComponentLookup
       artifactComponentLookup agentToolConfigLookup = inr serializedData ->
     saveGraph tenantId projectId serializedData (graph_id graph) <> inr res)
  \/ exists warningMessage serializedData res,
       detectOrphanedToolsAndGetWarning nodes agentToolConfigLookup toolLookup
       = inr warningMessage
       /\ serializeGraphData nodes edges metadata dataComponentLookup
            artifactComponentLookup agentToolConfigLookup = inr serializedData
       /\ saveGraph tenantId projectId serializedData (graph_id graph)
          = inr res.
Proof.
  destruct (detectOrphanedToolsAndGetWarning nodes agentToolConfigLookup
              toolLookup) as [?|w] eqn:Hdetect; [left; congruence|].
  destruct (serializeGraphData nodes edges metadata dataComponentLookup
              artifactComponentLookup agentToolConfigLookup)
    as [?|sd] eqn:Hserialize; [left; congruence|].
  destruct (saveGraph tenantId projectId sd (graph_id graph))
    as [?|res] eqn:Hsave.
  - left. intros ? ? ? ? ? ?. simplify_eq. congruence.
  - right. eauto 10.
Qed.

(** X7. [onSubmit] navigates to the graph's page exactly on a first save:
    [router.push] is called if and only if the save operation returned
    success with a graph that has an id, the graph being edited had none,
    and the updater did not throw; the URL is then
    [/<tenantId>/projects/<projectId>/graphs/<id>]. *)
Theorem onSubmit_navigates_on_first_save (url : str) :
  RouterPush url ∈ submitted.1
  <-> exists warningMessage serializedData d id,
        detectOrphanedToolsAndGetWarning nodes agentToolConfigLookup
          toolLookup = inr warningMessage
        /\ serializeGraphData nodes edges metadata dataComponentLookup
             artifactComponentLookup agentToolConfigLookup
           = inr serializedData
        /\ saveGraph tenantId projectId serializedData (graph_id graph)
           = inr (SaveSuccess (Some d))
        /\ truthy (graph_id graph) = false
        /\ g_id d = Some id /\ id <> []
        /\ is_Some (reconcileRelationshipIds d currentNodes)
        /\ url = lit "/" ++ tenantId ++ lit "/projects/" ++ projectId
                 ++ lit "/graphs/" ++ id.
Proof.
  split.
  - intros Hin.
    destruct save_outcome as [Hnot|(w & sd & res & Hdetect & Hserialize & Hsave)].
    { destruct (onSubmit_before_save_returns graph tenantId projectId nodes
                  edges metadata dataComponentLookup artifactComponentLookup
                  agentToolConfigLookup toolLookup currentNodes Hnot _ Hin)
        as [? ?]. discriminate. }
    destruct res as [data|error].
    + rewrite (onSubmit_success_trace w sd data Hdetect Hserialize Hsave)
        in Hin.
      destruct data as [d|]; simpl in Hin.
      * destruct (reconcileRelationshipIds d currentNodes) as [updated|]
          eqn:Hrec; simpl in Hin.
        -- destruct (truthy (graph_id graph)) eqn:Hg; simpl in Hin.
           { revert Hin. in_trace.
             intros [Hw|[?|[?|[?|[?|[]]]]]]; try discriminate.
             by apply not_in_warned in Hw. }
           destruct (truthy (g_id d)) eqn:Hd; simpl in Hin.
           ++ apply truthy_Some in Hd as (id & Hid & Hne).
              revert Hin. rewrite Hid. simpl. in_trace.
              intros [Hw|[?|[?|[?|[?|[?|[Hurl|[]]]]]]]]; try discriminate.
              { by apply not_in_warned in Hw. }
              injection Hurl as ->. exists w, sd, d, id. eauto 10.
           ++ revert Hin. in_trace.
              intros [Hw|[?|[?|[?|[?|[]]]]]]; try discriminate.
              by apply not_in_warned in Hw.
        -- revert Hin. in_trace.
           intros [Hw|[?|[?|[?|[]]]]]; try discriminate.
           by apply not_in_warned in Hw.
      * rewrite andb_false_r in Hin. revert Hin. in_trace.
        intros [Hw|[?|[?|[?|[]]]]]; try discriminate.
        by apply not_in_warned in Hw.
    + destruct (onSubmit_failure_effects graph tenantId projectId nodes
                  edges metadata dataComponentLookup artifactComponentLookup
                  agentToolConfigLookup toolLookup currentNodes w sd error
                  Hdetect Hserialize Hsave _ Hin)
        as [(? & ?)|[(? & ? & _)|[(? & ? & ?)|(? & ?)]]]; discriminate.
  - intros (w & sd & d & id & Hdetect & Hserialize & Hsave & Hg & Hid & Hne
            & [updated Hrec] & ->).
    rewrite (onSubmit_success_trace w sd (Some d) Hdetect Hserialize Hsave).
    rewrite Hrec, Hg. simpl. rewrite Hid.
    destruct id as [|c id]; [done|]. simpl. in_trace. tauto.
Qed.

Lemma onSubmit_failure_trace
    (warningMessage : option str) (serializedData : GraphDefinition)
    (error : RawError) :
  detectOrphanedToolsAndGetWarning nodes agentToolConfigLookup toolLookup
  = inr warningMessage ->
  serializeGraphData nodes edges metadata dataComponentLookup
    artifactComponentLookup agentToolConfigLookup = inr serializedData ->
  saveGraph tenantId projectId serializedData (graph_id graph)
  = inr (SaveFailure error) ->
  exists before message,
    submitted
    = ((if truthy warningMessage
        then [ToastWarning (default [] warningMessage)] else [])
       ++ before ++ [ToastError message], inr tt)
    /\ forall e, e ∈ before ->
         (exists summary, e = SetErrors summary)
         \/ (exists label reason, e = ConsoleError label reason).
Proof.
  intros Hdetect Hserialize Hsave.
  unfold onSubmit. rewrite Hdetect. simpl.
  destruct (truthy warningMessage); simpl; rewrite Hserialize; simpl;
    rewrite Hsave; simpl.
  all: destruct (parseGraphValidationErrors error) as [reason|summary];
    simpl;
    [|destruct (getErrorSummaryMessage summary) as [reason|message]];
    simpl.
  all: lazymatch goal with
       | |- context [SetErrors ?s :: ConsoleError ?l ?r :: _] =>
           exists [SetErrors s; ConsoleError l r]
       | |- context [ConsoleError ?l ?r :: _] => exists [ConsoleError l r]
       | |- context [SetErrors ?s :: _] => exists [SetErrors s]
       end;
    eexists; split; [reflexivity|];
    intros e; in_trace; intros Hin;
    repeat (destruct Hin as [->|Hin]; [eauto 10|]); done.
Qed.

(** X8. [onSubmit] reports each save once: when the save operation returns
    success the trace holds the success toast and no error toast, when it
    returns a failure it holds exactly one error toast and no success toast,
    and when the save operation is not reached (a helper before it, or the
    operation itself, throws) it holds neither. *)
Theorem onSubmit_reports_once :
  (forall warningMessage serializedData data,
     detectOrphanedToolsAndGetWarning nodes agentToolConfigLookup toolLookup
     = inr warningMessage ->
     serializeGraphData nodes edges metadata dataComponentLookup
       artifactComponentLookup agentToolConfigLookup = inr serializedData ->
     saveGraph tenantId projectId serializedData (graph_id graph)
     = inr (SaveSuccess data) ->
     ToastSuccess (lit "Graph saved") ∈ submitted.1
     /\ forall message, ToastError message ∉ submitted.1)
  /\ (forall warningMessage serializedData error,
        detectOrphanedToolsAndGetWarning nodes agentToolConfigLookup
          toolLookup = inr warningMessage ->
        serializeGraphData nodes edges metadata dataComponentLookup
          artifactComponentLookup agentToolConfigLookup
        = inr serializedData ->
        saveGraph tenantId projectId serializedData (graph_id graph)
        = inr (SaveFailure error) ->
        (exists message,
           forall message', ToastError message' ∈ submitted.1
                            <-> message' = message)
        /\ forall message, ToastSuccess message ∉ submitted.1)
  /\ ((forall warningMessage serializedData res,
         detectOrphanedToolsAndGetWarning nodes agentToolConfigLookup
           toolLookup = inr warningMessage ->
         serializeGraphData nodes edges metadata dataComponentLookup
           artifactComponentLookup agentToolConfigLookup
         = inr serializedData ->
         saveGraph tenantId projectId serializedData (graph_id graph)
         <> inr res) ->
      forall message,
        (ToastSuccess message ∉ submitted.1)
        /\ (ToastError message ∉ submitted.1)).
Proof.
  split_and!.
  - intros w sd data Hdetect Hserialize Hsave.
    rewrite (onSubmit_success_trace w sd data Hdetect Hserialize Hsave).
    assert (forall (message : str) (rest : list Effect),
              (forall e, e ∈ rest -> (exists u, e = SetNodes u)
                                     \/ (exists k v, e = SetMetadata k v)
                                     \/ (exists u, e = RouterPush u)) ->
              ToastError message
              ∉ (if truthy w then [ToastWarning (default [] w)] else [])
                ++ [ClearErrors; ToastSuccess (lit "Graph saved"); MarkSaved]
                ++ rest) as Hno.
    { intros message rest Hrest. in_trace.
      intros [Hw|[[?|[?|[?|[]]]]|Hr]]; try discriminate.
      - by apply not_in_warned in Hw.
      - destruct (Hrest _ Hr) as [(? & ?)|[(? & ? & ?)|(? & ?)]];
          discriminate. }
    assert (forall e,
              e ∈ (if negb (truthy (graph_id graph)) && truthy (graph_id data)
                   then [SetMetadata (lit "id") (default [] (graph_id data));
                         RouterPush
                           (lit "/" ++ tenantId ++ lit "/projects/"
                            ++ projectId ++ lit "/graphs/"
                            ++ default [] (graph_id data))]
                   else []) ->
              (exists u, e = SetNodes u)
              \/ (exists k v, e = SetMetadata k v)
              \/ (exists u, e = RouterPush u)) as Hnav.
    { intros e. destruct (_ && _); in_trace; [|tauto].
      intros [->|[->|[]]]; eauto 10. }
    destruct data as [d|]; simpl.
    + destruct (reconcileRelationshipIds d currentNodes) as [updated|];
        simpl.
      * split; [in_trace; tauto|]. intros message.
        apply (Hno message (SetNodes updated :: _)).
        intros e [->|He]%elem_of_cons; [eauto|by apply Hnav].
      * split; [in_trace; tauto|]. intros message.
        rewrite <- (app_nil_r [ClearErrors; _; _]).
        apply (Hno message []). by intros e ?%elem_of_nil.
    + split; [in_trace; tauto|]. intros message.
      apply (Hno message _ Hnav).
  - intros w sd error Hdetect Hserialize Hsave.
    destruct (onSubmit_failure_trace w sd error Hdetect Hserialize Hsave)
      as (before & message & -> & Hbefore).
    simpl. split.
    + exists message. intros message'. in_trace. split.
      * intros [Hw|[Hb|[He|[]]]].
        -- by apply not_in_warned in Hw.
        -- destruct (Hbefore _ Hb) as [(? & ?)|(? & ? & ?)]; discriminate.
        -- by injection He.
      * intros ->. tauto.
    + intros message'. in_trace.
      intros [Hw|[Hb|[He|[]]]]; try discriminate.
      * by apply not_in_warned in Hw.
      * destruct (Hbefore _ Hb) as [(? & ?)|(? & ? & ?)]; discriminate.
  - intros Hnot message.
    split; intros Hin;
      destruct (onSubmit_before_save_returns graph tenantId projectId nodes
                  edges metadata dataComponentLookup artifactComponentLookup
                  agentToolConfigLookup toolLookup currentNodes Hnot _ Hin)
        as [? ?]; discriminate.
Qed.

End SubmitMore.

(** ** The agent tool configuration lookup *)

Lemma toolsMap_of_snoc (tools : list CanUseItem) (tool : CanUseItem) :
  toolsMap_of (tools ++ [tool]) = toolsMap_step (toolsMap_of tools) tool.
Proof. unfold toolsMap_of. by rewrite foldl_app. Qed.

Lemma assign_lookup {A} (obj : Obj A) (key : str) (value : A) (k : str) :
  own (assign obj key value) !! k
  = if bool_decide (k = key /\ key <> lit "__proto__") then Some value
    else own obj !! k.
Proof.
  unfold assign. destruct (decide (key = lit "__proto__")) as [Hp|Hp].
  - rewrite (bool_decide_eq_true_2 (key = _)) by done. simpl.
    rewrite bool_decide_eq_false_2; [done|]. by intros [_ ?].
  - rewrite (bool_decide_eq_false_2 (key = _)) by done. simpl.
    destruct (decide (k = key)) as [->|Hk].
    + rewrite bool_decide_eq_true_2 by done. by rewrite lookup_insert_eq.
    + rewrite bool_decide_eq_false_2 by (by intros [? _]).
      by rewrite lookup_insert_ne.
Qed.

Lemma toolsMap_step_lookup (toolsMap : Obj AgentToolConfig)
    (tool : CanUseItem) (r : str) :
  own (toolsMap_step toolsMap tool) !! r
  = if bool_decide (agentToolRelationId tool = Some r /\ r <> []
                    /\ r <> lit "__proto__")
    then Some (config_of tool) else own toolsMap !! r.
Proof.
  unfold toolsMap_step.
  destruct (agentToolRelationId tool) as [[|c r']|] eqn:Hr.
  - rewrite bool_decide_eq_false_2; [done|]. intros ([= <-] & ? & _). done.
  - simpl. rewrite assign_lookup.
    destruct (decide (r = c :: r' /\ c :: r' <> lit "__proto__"))
      as [[-> Hp]|Hne].
    + by rewrite !bool_decide_eq_true_2.
    + rewrite bool_decide_eq_false_2 by done.
      rewrite bool_decide_eq_false_2; [done|].
      intros ([= <-] & _ & ?). by destruct Hne.
  - rewrite bool_decide_eq_false_2; [done|]. by intros [? _].
Qed.

Lemma toolsMap_of_sound (tools : list CanUseItem) (r : str)
    (cfg : AgentToolConfig) :
  own (toolsMap_of tools) !! r = Some cfg ->
  r <> [] /\ r <> lit "__proto__"
  /\ exists tool, tool ∈ tools
                  /\ agentToolRelationId tool = Some r
                  /\ cfg = config_of tool.
Proof.
  induction tools as [|tool tools IH] using rev_ind.
  - unfold toolsMap_of. simpl. by rewrite lookup_empty.
  - rewrite toolsMap_of_snoc, toolsMap_step_lookup.
    case_bool_decide as Hd.
    + intros [= <-]. destruct Hd as (Hr & Hne & Hp). split_and!; try done.
      exists tool. split; [|done]. apply elem_of_app. right. by left.
    + intros (Hne & Hp & t & Hin & ? & ?)%IH. split_and!; try done.
      exists t. split; [|done]. apply elem_of_app. by left.
Qed.

Lemma toolsMap_of_last (before after : list CanUseItem) (tool : CanUseItem)
    (r : str) :
  agentToolRelationId tool = Some r -> r <> [] -> r <> lit "__proto__" ->
  (forall t, t ∈ after -> agentToolRelationId t <> Some r) ->
  own (toolsMap_of (before ++ tool :: after)) !! r = Some (config_of tool).
Proof.
  intros Hr Hne Hp.
  induction after as [|t after IH] using rev_ind; intros Hafter.
  - rewrite toolsMap_of_snoc, toolsMap_step_lookup.
    by rewrite bool_decide_eq_true_2.
  - replace (before ++ tool :: after ++ [t])
      with ((before ++ tool :: after) ++ [t]) by by rewrite <- app_assoc.
    rewrite toolsMap_of_snoc, toolsMap_step_lookup.
    rewrite bool_decide_eq_false_2.
    + apply IH. intros t' Hin. apply Hafter, elem_of_app. by left.
    + intros [Ht _]. apply (Hafter t); [|done].
      apply elem_of_app. right. by left.
Qed.

Lemma toolsMap_of_unique (tools : list CanUseItem) (tool : CanUseItem)
    (r : str) :
  unique_relationships tools ->
  tool ∈ tools -> agentToolRelationId tool = Some r -> r <> [] ->
  r <> lit "__proto__" ->
  own (toolsMap_of tools) !! r = Some (config_of tool).
Proof.
  intros Huniq Hin Hr Hne Hp.
  induction tools as [|t tools IH] using rev_ind.
  - by apply elem_of_nil in Hin.
  - rewrite toolsMap_of_snoc, toolsMap_step_lookup.
    case_bool_decide as Hd.
    + destruct Hd as [Ht _].
      assert (t = tool) as ->; [|done].
      apply (Huniq t tool r); try done.
      apply elem_of_app. right. by left.
    + apply IH.
      * intros t1 t2 r' H1 H2. apply Huniq; apply elem_of_app; by left.
      * apply elem_of_app in Hin as [?|Hin]; [done|].
        apply list_elem_of_singleton in Hin as ->. by destruct Hd.
Qed.

Lemma toolsMap_of_complete (tools : list CanUseItem) (tool : CanUseItem)
    (r : str) :
  tool ∈ tools -> agentToolRelationId tool = Some r -> r <> [] ->
  r <> lit "__proto__" ->
  is_Some (own (toolsMap_of tools) !! r).
Proof.
  intros Hin Hr Hne Hp. induction tools as [|t tools IH] using rev_ind.
  - by apply elem_of_nil in Hin.
  - rewrite toolsMap_of_snoc, toolsMap_step_lookup.
    case_bool_decide as Hd; [eauto|].
    apply IH. apply elem_of_app in Hin as [?|Hin]; [done|].
    apply list_elem_of_singleton in Hin as ->. by destruct Hd.
Qed.

Lemma toolsMap_of_nonempty (tools : list CanUseItem) :
  bool_decide (0 < size (own (toolsMap_of tools))) = true
  <-> own (toolsMap_of tools) <> ∅.
Proof.
  rewrite bool_decide_eq_true. split.
  - intros Hs Hempty. rewrite Hempty, map_size_empty in Hs. lia.
  - intros Hne.
    destruct (decide (size (own (toolsMap_of tools)) = 0)) as [Hz|?];
      [|lia].
    by apply map_size_empty_inv in Hz.
Qed.

(** The own members of the lookup after the loop over a list of entries
    with pairwise different keys. *)
Lemma lookup_fold (entries : list (str * AgentDefinition)) (a : str)
    (toolsMap : Obj AgentToolConfig) :
  NoDup entries.*1 ->
  own (foldl lookup_step empty_object entries) !! a = Some toolsMap
  <-> a <> lit "__proto__"
      /\ exists agent tools,
           (a, agent) ∈ entries /\ canUse agent = Some tools
           /\ toolsMap = toolsMap_of tools /\ own toolsMap <> ∅.
Proof.
  induction entries as [|[k agentData] entries IH] using rev_ind.
  - intros _. simpl. rewrite lookup_empty. split; [done|].
    by intros (_ & ? & ? & ?%elem_of_nil & _).
  - rewrite fmap_app, foldl_app. simpl.
    intros [Hnodup [Hfresh _]]%NoDup_app.
    specialize (IH Hnodup).
    assert (Hrest : forall agent,
      (a, agent) ∈ entries ++ [(k, agentData)]
      <-> (a, agent) ∈ entries \/ (a = k /\ agent = agentData)).
    { intros agent. rewrite elem_of_app, list_elem_of_singleton.
      split; (intros [?|Heq]; [by left|right]).
      - by injection Heq.
      - by destruct Heq as [-> ->]. }
    assert (Hk : forall agent, (k, agent) ∉ entries).
    { intros agent Hin. apply (Hfresh k).
      - apply list_elem_of_fmap. by exists (k, agent).
      - by left. }
    destruct (canUse agentData) as [tools0|] eqn:Htools0.
    + destruct (bool_decide (0 < size (own (toolsMap_of tools0)))) eqn:Hs.
      * apply toolsMap_of_nonempty in Hs. rewrite assign_lookup.
        case_bool_decide as Hd.
        -- destruct Hd as [-> Hp]. split.
           ++ intros [= <-]. split; [done|].
              exists agentData, tools0. rewrite Hrest. auto.
           ++ intros (_ & agent & tools & [Hin|[_ ->]]%Hrest & Htools
                      & -> & _).
              ** by destruct (Hk agent).
              ** congruence.
        -- rewrite IH. split.
           ++ intros (Hp & agent & tools & Hin & ?).
              split; [done|]. exists agent, tools. rewrite Hrest. auto.
           ++ intros (Hp & agent & tools & [Hin|[-> ->]]%Hrest & ?).
              ** split; [done|]. by exists agent, tools.
              ** by destruct Hd.
      * rewrite IH. split.
        -- intros (Hp & agent & tools & Hin & ?).
           split; [done|]. exists agent, tools. rewrite Hrest. auto.
        -- intros (Hp & agent & tools & [Hin|[-> ->]]%Hrest & Htools
                   & -> & Hne).
           ++ split; [done|]. by exists agent, tools.
           ++ assert (tools = tools0) as -> by congruence.
              apply toolsMap_of_nonempty in Hne. congruence.
    + rewrite IH. split.
      * intros (Hp & agent & tools & Hin & ?).
        split; [done|]. exists agent, tools. rewrite Hrest. auto.
      * intros (Hp & agent & tools & [Hin|[-> ->]]%Hrest & Htools & ?).
        -- split; [done|]. by exists agent, tools.
        -- congruence.
Qed.

Lemma agentToolConfigLookup_lookup (g : GraphDefinition) (a : str)
    (toolsMap : Obj AgentToolConfig) :
  own (agentToolConfigLookup (Some g)) !! a = Some toolsMap
  <-> a <> lit "__proto__"
      /\ exists agent tools,
           agents g !! a = Some agent /\ canUse agent = Some tools
           /\ toolsMap = toolsMap_of tools /\ own toolsMap <> ∅.
Proof.
  unfold agentToolConfigLookup.
  rewrite lookup_fold by apply NoDup_fst_map_to_list.
  split; intros (Hp & agent & tools & Hin & ?); (split; [done|]);
    exists agent, tools; (split; [|done]).
  - by apply elem_of_map_to_list in Hin.
  - by apply elem_of_map_to_list.
Qed.

(** X9. The lookup built from a graph lists, per agent, exactly the
    relationships of the agent's [canUse] list that have a truthy id other
    than [__proto__]: an agent is listed only with at least one such
    relationship, and never under the key [__proto__]; every entry listed
    comes from an entry of the list with that id and carries its tool id,
    tool selection and headers; and of the entries that share an id the last
    one is the one listed. An assignment to the key [__proto__] adds no
    member, so neither an agent nor a relationship of that id is listed.
    Without a graph the lookup is empty. *)
Theorem agentToolConfigLookup_spec (g : GraphDefinition) :
  agentToolConfigLookup None = empty_object
  /\ (forall a toolsMap,
        own (agentToolConfigLookup (Some g)) !! a = Some toolsMap ->
        a <> lit "__proto__" /\ own toolsMap <> ∅)
  /\ (forall a toolsMap r cfg,
        own (agentToolConfigLookup (Some g)) !! a = Some toolsMap ->
        own toolsMap !! r = Some cfg ->
        r <> [] /\ r <> lit "__proto__"
        /\ exists agent tools tool,
             agents g !! a = Some agent /\ canUse agent = Some tools
             /\ tool ∈ tools /\ agentToolRelationId tool = Some r
             /\ cfg = config_of tool)
  /\ (forall a agent before tool after r,
        agents g !! a = Some agent ->
        canUse agent = Some (before ++ tool :: after) ->
        agentToolRelationId tool = Some r -> r <> [] ->
        a <> lit "__proto__" -> r <> lit "__proto__" ->
        (forall t, t ∈ after -> agentToolRelationId t <> Some r) ->
        exists toolsMap,
          own (agentToolConfigLookup (Some g)) !! a = Some toolsMap
          /\ own toolsMap !! r = Some (config_of tool)).
Proof.
  split_and!.
  - done.
  - intros a toolsMap
      (? & ? & ? & _ & _ & _ & ?)%agentToolConfigLookup_lookup.
    done.
  - intros a toolsMap r cfg
      (_ & agent & tools & ? & ? & -> & _)%agentToolConfigLookup_lookup Hr.
    apply toolsMap_of_sound in Hr as (? & ? & tool & ? & ? & ?).
    split_and!; try done. exists agent, tools, tool. done.
  - intros a agent before tool after r Hagent Htools Hr Hne Ha Hp Hafter.
    pose proof (toolsMap_of_last before after tool r Hr Hne Hp Hafter)
      as Hl.
    exists (toolsMap_of (before ++ tool :: after)). split; [|done].
    apply agentToolConfigLookup_lookup. split; [done|].
    exists agent, (before ++ tool :: after).
    split_and!; try done. intros Hempty. rewrite Hempty in Hl.
    by rewrite lookup_empty in Hl.
Qed.

(** X10. An id the updater can give to a node, when neither it nor the
    node's agent id is [__proto__], is an id the lookup built from the same
    response lists for the node's agent; when no two entries of that
    agent's [canUse] list share a relationship id, the tool recorded for the
    id is the node's tool. *)
Theorem candidate_in_lookup (data : GraphDefinition) (node : Node) (r : str) :
  candidate data node r ->
  r <> lit "__proto__" ->
  agentId (n_data node) <> Some (lit "__proto__") ->
  exists agentId' toolsMap cfg,
    agentId (n_data node) = Some agentId'
    /\ own (agentToolConfigLookup (Some data)) !! agentId' = Some toolsMap
    /\ own toolsMap !! r = Some cfg
    /\ (forall agent tools,
          agents data !! agentId' = Some agent ->
          canUse agent = Some tools -> unique_relationships tools ->
          Some (c_toolId cfg) = toolId (n_data node)).
Proof.
  intros (a & t & agent & tools & tool & Ha & Ht & Hagent & Htools & Hin
          & Htool & Hr & Hne) Hp Hpa.
  destruct (toolsMap_of_complete tools tool r Hin Hr Hne Hp) as [cfg Hcfg].
  exists a, (toolsMap_of tools), cfg. split_and!; try done.
  - apply agentToolConfigLookup_lookup. split; [congruence|].
    exists agent, tools.
    split_and!; try done. intros Hempty. rewrite Hempty in Hcfg.
    by rewrite lookup_empty in Hcfg.
  - intros agent' tools' Hagent' Htools' Huniq.
    assert (agent' = agent) as -> by congruence.
    assert (tools' = tools) as -> by congruence.
    rewrite (toolsMap_of_unique tools tool r Huniq Hin Hr Hne Hp) in Hcfg.
    injection Hcfg as <-. simpl. by rewrite Ht, Htool.
Qed.

(** ** Selection and the side pane *)

(** X11. What a change of selection routes to: the node pane exactly when
    one node is selected; otherwise the edge pane exactly when the one
    selected edge is an A2A or a self-loop edge; otherwise the graph pane
    when the side pane is open and no pane when it is closed. The node id is
    set exactly when one node is selected, and the edge id exactly when the
    one selected edge is of these types, also while the node pane is
    shown. *)
Theorem selection_routing (isOpen : bool) (nodes : list Node)
    (edges : list Edge) :
  let q := onSelectionChange isOpen nodes edges in
  let routable (e : Edge) :=
    e_type e = Some A2A \/ e_type e = Some SelfLoop in
  (pane q = Some NodePane <-> length nodes = 1)
  /\ (forall id, q_nodeId q = Some id <-> exists n, nodes = [n] /\ id = n_id n)
  /\ (forall id, q_edgeId q = Some id
                 <-> exists e, edges = [e] /\ routable e /\ id = e_id e)
  /\ (pane q = Some EdgePane <-> length nodes <> 1 /\ is_Some (q_edgeId q))
  /\ (pane q = Some GraphPane
      <-> isOpen = true /\ length nodes <> 1 /\ q_edgeId q = None)
  /\ (pane q = None
      <-> isOpen = false /\ length nodes <> 1 /\ q_edgeId q = None).
Proof.
  intros q routable. subst q routable. unfold onSelectionChange.
  assert (forall e : Edge,
            bool_decide (e_type e = Some A2A)
            || bool_decide (e_type e = Some SelfLoop) = true
            <-> e_type e = Some A2A \/ e_type e = Some SelfLoop) as Hroute.
  { intros e. by rewrite orb_true_iff, !bool_decide_eq_true. }
  destruct nodes as [|n [|n2 nodes]]; destruct edges as [|e [|e2 edges]];
    simpl;
    try (destruct (bool_decide (e_type e = Some A2A)
                   || bool_decide (e_type e = Some SelfLoop)) eqn:Hr;
         [apply Hroute in Hr
         |assert (~ (e_type e = Some A2A \/ e_type e = Some SelfLoop))
            by (rewrite <- Hroute; congruence)]);
    destruct isOpen; simpl; split_and!; try intros id;
    split; try done; try lia;
    try (by intros (? & [=] & _));
    try (by intros (? & [=] & _ & _));
    try (by intros [_ [? [=]]]);
    try (by intros (_ & _ & [=]));
    try (by intros ([=] & _));
    try (by intros (? & _); lia);
    try (by intros [= <-]; eauto);
    try (by intros (? & [= <-] & ->));
    try (by intros (? & [= <-] & _ & ->));
    try (by intros (x & [= <-] & Hx & _); tauto);
    try (by intros _; split_and!; eauto; lia).
Qed.

Lemma unselect_select_node (b : bool) (node : Node) :
  select_node false (select_node b node) = select_node false node.
Proof. done. Qed.

Lemma unselect_select_edge (b : bool) (edge : Edge) :
  select_edge false (select_edge b edge) = select_edge false edge.
Proof. done. Qed.

Lemma same_but_selection_nodes (f : Node -> bool) (nodes : list Node) :
  select_node false <$> ((fun node => select_node (f node) node) <$> nodes)
  = select_node false <$> nodes.
Proof. rewrite <- list_fmap_compose. by apply list_fmap_ext. Qed.





Lemma existsb_node_id (nodeId : str) (nodes : list Node) :
  existsb (fun node => bool_decide (Some (n_id node) = Some nodeId)) nodes
  = true
  <-> exists node, node ∈ nodes /\ n_id node = nodeId.
Proof.
  rewrite existsb_exists. split.
  - intros (node & Hin & Hid). apply bool_decide_eq_true in Hid.
    exists node. rewrite list_elem_of_In. split; congruence.
  - intros (node & Hin & Hid). exists node. rewrite <- list_elem_of_In.
    split; [done|]. apply bool_decide_eq_true. congruence.
Qed.

(** X13. The effect run on first render, for a graph and a node id read
    from the query state (and no edge id): the nodes with that id are
    selected and all others deselected, the edges are left alone, and the
    query state is left alone when the graph has a node with that id, while
    an id that names no node of the graph is removed from it and the pane
    set to the graph pane. When the store holds the graph's nodes, no edge
    is selected and the query state named that id, whatever is selected
    afterwards is what the query state names. *)
Theorem mount_resolves_node_id (openGraphPane : QueryState -> QueryState)
    (g : GraphDefinition) (nodeId : str) (edgeId : option str)
    (graphNodes : list Node) (graphEdges : list Edge) (canvas : Canvas) :
  nodeId <> [] -> truthy edgeId = false ->
  let after :=
    onMount openGraphPane (Some g) (Some nodeId) edgeId graphNodes graphEdges
      canvas in
  same_but_selection after canvas
  /\ (forall node, node ∈ c_nodes after ->
        n_selected node = Some (bool_decide (n_id node = nodeId)))
  /\ c_edges after = c_edges canvas
  /\ ((exists node, node ∈ graphNodes /\ n_id node = nodeId) ->
      c_query after = c_query canvas)
  /\ ((forall node, node ∈ graphNodes -> n_id node <> nodeId) ->
      c_query after
      = {| pane := Some GraphPane;
           q_nodeId := None;
           q_edgeId := q_edgeId (c_query canvas) |})
  /\ (c_nodes canvas = graphNodes ->
      q_nodeId (c_query canvas) = Some nodeId ->
      (forall edge, edge ∈ c_edges canvas -> e_selected edge <> Some true) ->
      selection_consistent after).
Proof.
  intros Hne Hedge after. subst after. unfold onMount.
  assert (truthy (Some nodeId) = true) as Hnode by by destruct nodeId.
  rewrite Hnode, Hedge. simpl.
  destruct (existsb _ graphNodes) eqn:Hex; simpl.
  - apply existsb_node_id in Hex.
    split_and!; try done.
    + split; simpl; [|done].
      apply (same_but_selection_nodes
               (fun node => bool_decide (Some (n_id node) = Some nodeId))).
    + intros node (n & -> & _)%list_elem_of_fmap. simpl. f_equal.
      apply bool_decide_ext. split; congruence.
    + intros Hnone. destruct Hex as (node & Hin & Hid).
      by destruct (Hnone node Hin).
    + intros Hnodes Hq Hedges. split; simpl.
      * intros node (n & -> & _)%list_elem_of_fmap. simpl.
        intros [= Hsel]. apply bool_decide_eq_true in Hsel.
        rewrite Hq. congruence.
      * intros edge Hin Hsel. by destruct (Hedges edge Hin).
  - assert (forall node, node ∈ graphNodes -> n_id node <> nodeId) as Hnone.
    { intros node Hin Hid.
      assert (existsb (fun node =>
                bool_decide (Some (n_id node) = Some nodeId)) graphNodes
              = true) by (apply existsb_node_id; eauto).
      congruence. }
    split_and!; try done.
    + split; simpl; [|done].
      apply (same_but_selection_nodes
               (fun node => bool_decide (Some (n_id node) = Some nodeId))).
    + intros node (n & -> & _)%list_elem_of_fmap. simpl. f_equal.
      apply bool_decide_ext. split; congruence.
    + intros (node & Hin & Hid). by destruct (Hnone node Hin).
    + intros Hnodes Hq Hedges. split; simpl.
      * intros node (n & -> & Hin)%list_elem_of_fmap. simpl.
        intros [= Hsel]. apply bool_decide_eq_true in Hsel.
        rewrite Hnodes in Hin. destruct (Hnone n Hin). congruence.
      * intros edge Hin Hsel. by destruct (Hedges edge Hin).
Qed.

(** ** Connecting *)

Section ConnectMore.
Context `{NodeTypeIds}.

(** X14. [onConnectWrapped] marks the graph unsaved first and executes the
    add-edge command last. It calls [updateNodeData] exactly when an agent
    handle is connected to the MCP handle of a connection whose target is an
    MCP node of [nodes], the list the callback closed over at the first
    render; the call is then for that target, with the data that node had
    in that list, its agent id replaced by the connection's source and its
    relationship id by [null]. *)
Theorem connecting_agent_to_tool (nodes : list Node) (p : Connection) :
  let trace := onConnectWrapped nodes p in
  head trace = Some MarkUnsaved
  /\ last trace
     = Some (ExecuteAddPreparedEdge (onConnectWrapped_newEdge p) true)
  /\ (forall id d,
        UpdateNodeData id d ∈ trace
        <-> targetHandle p = Some mcpNodeHandleId
            /\ agent_handle (sourceHandle p)
            /\ exists targetNode,
                 find_node nodes (target p) = Some targetNode
                 /\ n_type targetNode = Some MCP
                 /\ id = target p
                 /\ d = {| name := name (n_data targetNode);
                           isDefault := isDefault (n_data targetNode);
                           toolId := toolId (n_data targetNode);
                           agentId := Some (source p);
                           relationshipId := None;
                           imageUrl := imageUrl (n_data targetNode);
                           provider := provider (n_data targetNode);
                           rest := rest (n_data targetNode) |}).
Proof.
  intros trace. subst trace.
  destruct (onConnectWrapped_executes nodes p) as (updates & Htrace & _).
  assert (Hupd : forall id d,
    UpdateNodeData id d ∈ onConnectWrapped nodes p
    <-> targetHandle p = Some mcpNodeHandleId
        /\ agent_handle (sourceHandle p)
        /\ exists targetNode,
             find_node nodes (target p) = Some targetNode
             /\ n_type targetNode = Some MCP
             /\ id = target p
             /\ d = {| name := name (n_data targetNode);
                       isDefault := isDefault (n_data targetNode);
                       toolId := toolId (n_data targetNode);
                       agentId := Some (source p);
                       relationshipId := None;
                       imageUrl := imageUrl (n_data targetNode);
                       provider := provider (n_data targetNode);
                       rest := rest (n_data targetNode) |}).
  { intros id d. unfold onConnectWrapped.
    pose proof (agent_handle_decide (sourceHandle p)) as Hs.
    assert (handle_is (targetHandle p) mcpNodeHandleId = true
            <-> targetHandle p = Some mcpNodeHandleId) as Ht
      by apply bool_decide_eq_true.
    destruct (handle_is (targetHandle p) mcpNodeHandleId) eqn:Et;
      destruct (handle_is (sourceHandle p) agentNodeSourceHandleId
                || handle_is (sourceHandle p) agentNodeTargetHandleId)
        eqn:Es; simpl.
    2-4: (split;
          [ rewrite elem_of_cons, elem_of_cons, elem_of_nil;
            intros [?|[?|[]]]; discriminate
          | intros (? & ? & _);
            first [ assert (true = false) by (by apply Ht); discriminate
                  | assert (false = true) by (by apply Hs); discriminate
                  | assert (false = true) by (by apply Ht); discriminate ] ]).
    destruct (find_node nodes (target p)) as [targetNode|] eqn:Hfind.
    - pose proof Hfind as Hid. unfold find_node in Hid.
      apply List.find_some in Hid as [_ Hid].
      apply bool_decide_eq_true in Hid.
      case_bool_decide as Htype; simpl.
      + rewrite !elem_of_cons, elem_of_nil. split.
        * intros [?|[Hu|[?|[]]]]; try discriminate.
          injection Hu as -> ->. split; [by apply Ht|].
          split; [by apply Hs|]. exists targetNode. done.
        * intros (_ & _ & targetNode' & Hfind' & _ & -> & ->).
          assert (targetNode' = targetNode) as -> by congruence.
          right. left. by rewrite Hid.
      + rewrite !elem_of_cons, elem_of_nil. split.
        * intros [?|[?|[]]]; discriminate.
        * intros (_ & _ & targetNode' & Hfind' & Htype' & _).
          assert (targetNode' = targetNode) as -> by congruence. done.
    - simpl. rewrite !elem_of_cons, elem_of_nil. split.
      + intros [?|[?|[]]]; discriminate.
      + by intros (_ & _ & ? & ? & _). }
  split_and!.
  - by rewrite Htrace.
  - rewrite Htrace, app_comm_cons. apply last_snoc.
  - exact Hupd.
Qed.

End ConnectMore.

(** ** The theorems above at sample inputs *)

Lemma getEdgeId_injective_witness :
  (lit "n1" = lit "n2" /\ lit "n2" = lit "n1")
  \/ (lit "n1" = lit "n1" /\ lit "n2" = lit "n2").
Proof.
  apply (getEdgeId_injective (lit "n1") (lit "n2") (lit "n2") (lit "n1")).
  - right. split_and!; reflexivity.
  - reflexivity.
Defined.

Lemma new_edge_id_identifies_endpoints_witness :
  (lit "n1" = lit "n2" /\ lit "n2" = lit "n1")
  \/ (lit "n1" = lit "n1" /\ lit "n2" = lit "n2").
Proof.
  apply (@new_edge_id_identifies_endpoints sample_ids
           {| source := lit "n1"; target := lit "n2";
              sourceHandle := Some (lit "agent-source");
              targetHandle := Some (lit "agent-target") |}
           {| source := lit "n2"; target := lit "n1";
              sourceHandle := None; targetHandle := None |}).
  - repeat (apply Forall_cons; split;
            [split;
             [intros Hin; vm_compute in Hin;
              repeat (apply elem_of_cons in Hin as [Hin|Hin];
                      [discriminate Hin|]);
              by apply elem_of_nil in Hin
             |intros Heq; vm_compute in Heq; discriminate Heq]|]).
    apply Forall_nil_2.
  - rewrite !newEdge_id. reflexivity.
Defined.

Lemma onSubmit_saved_but_rejected_witness :
  exists message,
    (@onSubmit sample_saving_domain None (lit "tenant") (lit "project")
       [] [] tt tt tt tt ∅ [sample_mcp_node "n1" "a1" "t1" None]).2
    = inl (ThrownError message).
Proof.
  destruct (@onSubmit_saved_but_rejected sample_saving_domain None
              (lit "tenant") (lit "project") [] [] tt tt tt tt ∅
              [sample_mcp_node "n1" "a1" "t1" None]
              None {| g_id := None; agents := ∅ |}
              {| g_id := Some (lit "g1"); agents := ∅ |}
              (sample_mcp_node "n1" "a1" "t1" None) (lit "a1")
              eq_refl eq_refl eq_refl
              (list_elem_of_here _ _) eq_refl eq_refl eq_refl)
    as [Hthrown _].
  - intros Hin. vm_compute in Hin.
    repeat (apply elem_of_cons in Hin as [Hin|Hin]; [discriminate Hin|]).
    by apply elem_of_nil in Hin.
  - exact Hthrown.
Defined.

Lemma candidate_in_lookup_witness :
  exists agentId' toolsMap cfg,
    agentId (n_data (sample_mcp_node "n1" "a1" "t1" None)) = Some agentId'
    /\ own (agentToolConfigLookup (Some sample_saved)) !! agentId'
       = Some toolsMap
    /\ own toolsMap !! lit "r1" = Some cfg
    /\ (forall agent tools,
          agents sample_saved !! agentId' = Some agent ->
          canUse agent = Some tools -> unique_relationships tools ->
          Some (c_toolId cfg)
          = toolId (n_data (sample_mcp_node "n1" "a1" "t1" None))).
Proof.
  apply (candidate_in_lookup sample_saved
           (sample_mcp_node "n1" "a1" "t1" None) (lit "r1")).
  - exists (lit "a1"), (lit "t1"),
      {| canUse := Some [sample_canUse "t1" "r1"; sample_canUse "t1" "r2"] |},
      [sample_canUse "t1" "r1"; sample_canUse "t1" "r2"],
      (sample_canUse "t1" "r1").
    split_and!; try reflexivity.
    + apply list_elem_of_here.
    + intros Heq. vm_compute in Heq. discriminate Heq.
  - intros Heq. vm_compute in Heq. discriminate Heq.
  - intros Heq. vm_compute in Heq. discriminate Heq.
Defined.



Lemma mount_resolves_node_id_witness :
  c_query
    (onMount (fun query => query) (Some sample_saved) (Some (lit "n9")) None
       [sample_mcp_node "n1" "a1" "t1" None] []
       {| c_nodes := [sample_mcp_node "n1" "a1" "t1" None];
          c_edges := [];
          c_query := {| pane := Some NodePane;
                        q_nodeId := Some (lit "n9");
                        q_edgeId := None |} |})
  = {| pane := Some GraphPane; q_nodeId := None; q_edgeId := None |}.
Proof.
  assert (lit "n9" <> []) as Hne
    by (intros Heq; vm_compute in Heq; discriminate Heq).
  pose proof (mount_resolves_node_id (fun query => query) sample_saved
                (lit "n9") None [sample_mcp_node "n1" "a1" "t1" None] []
                {| c_nodes := [sample_mcp_node "n1" "a1" "t1" None];
                   c_edges := [];
                   c_query := {| pane := Some NodePane;
                                 q_nodeId := Some (lit "n9");
                                 q_edgeId := None |} |}
                Hne eq_refl) as Hmount.
  cbv zeta in Hmount. destruct Hmount as (_ & _ & _ & _ & Hquery & _).
  apply Hquery. intros node Hin Hid.
  apply list_elem_of_singleton in Hin. subst node.
  vm_compute in Hid. discriminate Hid.
Defined.

End GraphMore.

(** * More of the API configuration *)

Module ApiMore.
Import Js Errors Api JsFacts Samples ApiFacts.

(** ** [String.prototype.includes] *)

Lemma starts_with_spec (p s : str) :
  starts_with p s = true <-> exists post, s = p ++ post.
Proof.
  revert s; induction p as [|x p IH]; intros s; simpl.
  - split; [eauto|done].
  - destruct s as [|y s]; simpl.
    + split; [done|]. intros [post Hpost]. discriminate.
    + rewrite andb_true_iff, bool_decide_eq_true, IH. split.
      * intros [-> [post ->]]. eauto.
      * intros [post Hpost]. injection Hpost as -> ->. eauto.
Qed.

Lemma includes_spec (s p : str) :
  includes s p = true <-> exists pre post, s = pre ++ p ++ post.
Proof.
  induction s as [|y s IH]; simpl.
  - rewrite orb_false_r, starts_with_spec. split.
    + intros [post Hp]. by exists [], post.
    + intros (pre & post & Hs). destruct pre; [eauto|discriminate].
  - rewrite orb_true_iff, starts_with_spec, IH. split.
    + intros [[post Hp]|(pre & post & ->)].
      * by exists [], post.
      * by exists (y :: pre), post.
    + intros (pre & post & Hs). destruct pre as [|z pre].
      * left. eauto.
      * right. injection Hs as -> ->. eauto.
Qed.

Lemma has_json_content_decide (response : Response) :
  match r_contentType response with
  | Some contentType => includes contentType (lit "application/json")
  | None => false
  end = true
  <-> has_json_content response.
Proof.
  unfold has_json_content. destruct (r_contentType response) as [ct|].
  - rewrite includes_spec. split.
    + intros (pre & post & ->). eauto.
    + intros (ct' & pre & post & [= <-] & ->). eauto.
  - split; [done|]. by intros (ct' & pre & post & ? & _).
Qed.

(** ** Requests *)

Section ResolutionFacts.
Context `{Platform}.

(** X15. [makeApiRequestInternal] resolves exactly when [fetch] resolved
    with a response whose status is in the range 200 to 299 and either the
    response has no content type that mentions [application/json], or its
    text is empty (it then resolves with [undefined] in both cases), or its
    text is not empty and [JSON.parse] accepts it (it then resolves with the
    parsed value). The body of a response that is not announced as JSON is
    never read. *)
Theorem request_resolves_iff (env : Env) (baseUrl endpoint : str)
    (options : RequestInit) (v : value) :
  let sent := request env baseUrl endpoint options in
  (makeApiRequestInternal env baseUrl endpoint options).2 = inr v
  <-> exists response,
        fetch sent = inr response
        /\ (200 <= r_status response <= 299)%Z
        /\ ((~ has_json_content response /\ v = None)
            \/ (has_json_content response
                /\ r_text response = inr [] /\ v = None)
            \/ (has_json_content response
                /\ exists text parsed,
                     r_text response = inr text /\ text <> []
                     /\ JSON_parse text = inr parsed /\ v = Some parsed)).
Proof.
  intros sent. subst sent. unfold makeApiRequestInternal. simpl.
  destruct (fetch _) as [reason|response]; simpl.
  { split; [done|]. by intros (response & ? & _). }
  pose proof (has_json_content_decide response) as Hjson.
  unfold ok. case_bool_decide as Hok; simpl.
  - destruct (match r_contentType response with
              | Some contentType =>
                  includes contentType (lit "application/json")
              | None => false
              end) eqn:Hinc.
    + assert (has_json_content response) as Hhas by by apply Hjson.
      destruct (r_text response) as [why|text] eqn:Htext; simpl.
      * split; [done|].
        intros (response' & [= <-] & _ & [[Hno _]|[(_ & Ht & _)|Hp]]).
        -- by destruct Hno.
        -- congruence.
        -- destruct Hp as (_ & text & parsed & Ht & _). congruence.
      * destruct text as [|c text]; simpl.
        -- split.
           ++ intros [= <-]. exists response. split_and!; try done; try lia.
              right. left. done.
           ++ intros (response' & [= <-] & _ & [[Hno _]|[(_ & _ & ->)|Hp]]).
              ** by destruct Hno.
              ** done.
              ** destruct Hp as (_ & text & parsed & Ht & Hne & _).
                 congruence.
        -- destruct (JSON_parse (c :: text)) as [why|parsed] eqn:Hparse;
             simpl.
           ++ split; [done|].
              intros (response' & [= <-] & _ & [[Hno _]|[(_ & Ht & _)|Hp]]).
              ** by destruct Hno.
              ** congruence.
              ** destruct Hp as (_ & text' & parsed & Ht & _ & Hp & _).
                 congruence.
           ++ split.
              ** intros [= <-]. exists response.
                 split_and!; try done; try lia.
                 right. right. split; [done|].
                 exists (c :: text), parsed. done.
              ** intros (response' & [= <-] & _
                         & [[Hno _]|[(_ & Ht & _)|Hp]]).
                 --- by destruct Hno.
                 --- congruence.
                 --- destruct Hp as (_ & text' & parsed' & Ht & _ & Hp & ->).
                     congruence.
    + assert (~ has_json_content response) as Hno.
      { intros Hhas. apply Hjson in Hhas. congruence. }
      split.
      * intros [= <-]. exists response. split_and!; try done; try lia.
        by left.
      * intros (response' & [= <-] & _ & [[_ ->]|[(Hhas & _)|(Hhas & _)]]);
          done.
  - split.
    + destruct (r_json response) as [why|parsed]; simpl; [done|].
      by destruct (get_error parsed).
    + intros (response' & [= <-] & Hrange & _). by destruct Hok.
Qed.

End ResolutionFacts.

(** *** Array indices as property keys *)

Lemma decimal_digits_spec (fuel : nat) :
  forall (n : N) (digits : str),
    (N.to_nat n <= fuel)%nat -> Forall is_digit digits ->
    Forall is_digit (decimal_digits fuel n digits)
    /\ decimal_digits fuel n digits <> []
    /\ digits_value (decimal_digits fuel n digits)
       = (n * 10 ^ N.of_nat (length digits) + digits_value digits)%N.
Proof.
  induction fuel as [|fuel IH]; intros n digits Hfuel Hdigits.
  - assert (n = 0%N) as -> by lia. simpl.
    change (48 + 0 mod 10)%N with 48%N. split_and!; [|done|simpl; lia].
    constructor; [|done]. unfold is_digit. lia.
  - cbn [decimal_digits].
    pose proof (N.div_mod' n 10) as Hn.
    assert (n mod 10 < 10)%N as Hlt by (by apply N.mod_upper_bound).
    set (d := (n mod 10)%N) in *. set (q := (n / 10)%N) in *.
    clearbody d q.
    assert (Hd : is_digit (48 + d)%N) by (unfold is_digit; lia).
    assert (Hvalue :
      digits_value ((48 + d)%N :: digits)
      = (d * 10 ^ N.of_nat (length digits) + digits_value digits)%N).
    { cbn [digits_value]. f_equal. f_equal. lia. }
    destruct (q =? 0)%N eqn:Hq.
    + apply N.eqb_eq in Hq. split_and!; [by constructor|done|].
      rewrite Hvalue. f_equal. f_equal. lia.
    + apply N.eqb_neq in Hq.
      assert (N.to_nat q <= fuel)%nat as Hfuel' by lia.
      destruct (IH q ((48 + d)%N :: digits) Hfuel' ltac:(by constructor))
        as (Hall & Hne & Hv).
      split_and!; [done|done|].
      rewrite Hv, Hvalue.
      replace (N.of_nat (length ((48 + d)%N :: digits)))
        with (N.succ (N.of_nat (length digits))) by (simpl; lia).
      rewrite N.pow_succ_r'.
      generalize (10 ^ N.of_nat (length digits))%N. intros pw. nia.
Qed.

Lemma index_key_digits (i : nat) :
  Forall is_digit (index_key i) /\ index_key i <> [].
Proof.
  destruct (decimal_digits_spec i (N.of_nat i) []) as (? & ? & _);
    [lia | done | done].
Qed.

Lemma index_key_inj (i j : nat) : index_key i = index_key j -> i = j.
Proof.
  intros Heq. apply (f_equal digits_value) in Heq. unfold index_key in Heq.
  destruct (decimal_digits_spec i (N.of_nat i) []) as (_ & _ & Hi);
    [lia | done |].
  destruct (decimal_digits_spec j (N.of_nat j) []) as (_ & _ & Hj);
    [lia | done |].
  rewrite Hi, Hj in Heq. simpl in Heq. lia.
Qed.

(** A name that holds a code unit that is no digit is the key of no array
    index. *)
Lemma index_key_not (name : str) (c : N) (i : nat) :
  c ∈ name -> ~ is_digit c -> index_key i <> name.
Proof.
  intros Hin Hc Heq. destruct (index_key_digits i) as [Hall _].
  rewrite Heq in Hall. rewrite Forall_forall in Hall. by apply Hc, Hall.
Qed.

Lemma spread_array_lookup (pairs : list (list str)) (k : str)
    (v : HeaderValue) :
  spread_headers (Some (HeadersArray pairs)) !! k = Some v
  <-> exists i pair,
        pairs !! i = Some pair /\ k = index_key i /\ v = HeaderPair pair.
Proof.
  simpl. split.
  - intros Hk%elem_of_list_to_map_2.
    apply elem_of_lookup_imap in Hk as (i & pair & [= -> ->] & Hi). eauto.
  - intros (i & pair & Hi & -> & ->).
    apply elem_of_list_to_map_1.
    + rewrite fmap_imap. apply NoDup_alt. intros i1 i2 key H1 H2.
      rewrite list_lookup_imap in H1, H2.
      destruct (pairs !! i1); [|done]. destruct (pairs !! i2); [|done].
      simpl in *. apply index_key_inj. congruence.
    + by apply (elem_of_lookup_imap_2
                  (fun i pair => (index_key i, HeaderPair pair))).
Qed.

Section ShapeFacts.
Context `{Defaults} `{Platform}.

(** X16. What the two wrappers send. The URL is the resolved base URL of
    the wrapper, a slash, and the endpoint; the method and the body are the
    caller's; and the two wrappers send the same method, body and headers.
    The headers are a plain object. Its [Authorization] member is the bearer
    token of the manage bypass secret when that secret is set, whatever the
    caller gave; every other member is what the spread of the caller's
    headers copied under that name, if anything, and otherwise
    [application/json] for [Content-Type] and nothing for any other name.
    The spread copies the members of a plain object; it copies nothing of a
    [Headers] instance, so that the caller's headers are then not sent; and
    of an array of pairs it copies each pair under its index, so that a
    [Content-Type] or [Authorization] pair of the caller does not take effect
    and every member but these two is a pair under the decimal digits of its
    index. *)
Theorem request_shape (env : Env) (st : State) (endpoint : str)
    (options : RequestInit) :
  let manage := (makeManagementApiRequest env st endpoint options).1.1 in
  let run := (makeAgentsRunApiRequest env st endpoint options).1.1 in
  let secret := env !! lit "INKEEP_AGENTS_MANAGE_API_BYPASS_SECRET" in
  let token :=
    if truthy secret
    then Some (HeaderString (lit "Bearer " ++ default [] secret))
    else None in
  let json := HeaderString (lit "application/json") in
  url manage = (getManageApiUrl env st).1 ++ lit "/" ++ endpoint
  /\ url run = (getRunApiUrl env st).1 ++ lit "/" ++ endpoint
  /\ init run = init manage
  /\ method (init manage) = method options
  /\ body (init manage) = body options
  /\ exists hs,
       headers (init manage) = Some (HeadersRecord hs)
       /\ (forall k,
             hs !! k
             = if bool_decide (k = lit "Authorization") && truthy secret
               then token
               else match spread_headers (headers options) !! k with
                    | Some v => Some v
                    | None =>
                        if bool_decide (k = lit "Content-Type")
                        then Some json else None
                    end)
       /\ (forall members k,
             headers options = Some (HeadersRecord members) ->
             spread_headers (headers options) !! k = members !! k)
       /\ (forall entries k,
             headers options = Some (HeadersInstance entries) ->
             hs !! k
             = if bool_decide (k = lit "Authorization") then token
               else if bool_decide (k = lit "Content-Type") then Some json
                    else None)
       /\ (forall pairs,
             headers options = Some (HeadersArray pairs) ->
             hs !! lit "Content-Type" = Some json
             /\ hs !! lit "Authorization" = token
             /\ (forall i pair,
                   pairs !! i = Some pair ->
                   hs !! index_key i = Some (HeaderPair pair))
             /\ (forall k v,
                   hs !! k = Some v ->
                   k <> lit "Content-Type" -> k <> lit "Authorization" ->
                   exists i pair,
                     pairs !! i = Some pair /\ k = index_key i
                     /\ v = HeaderPair pair)).
Proof.
  intros manage run secret token json. subst manage run.
  unfold makeManagementApiRequest, makeAgentsRunApiRequest.
  destruct (getManageApiUrl env st) as [manageUrl st1].
  destruct (getRunApiUrl env st) as [runUrl st2]. simpl.
  split_and!; try done.
  eexists; split; [done|].
  assert (Hgeneral : forall k,
    defaultHeaders env options !! k
    = if bool_decide (k = lit "Authorization") && truthy secret
      then token
      else match spread_headers (headers options) !! k with
           | Some v => Some v
           | None =>
               if bool_decide (k = lit "Content-Type")
               then Some json else None
           end).
  { intros k. unfold defaultHeaders. fold secret.
    assert (Hbase :
      (spread_headers (headers options)
       ∪ {[ lit "Content-Type" := json ]}) !! k
      = match spread_headers (headers options) !! k with
        | Some v => Some v
        | None =>
            if bool_decide (k = lit "Content-Type")
            then Some json else None
        end).
    { rewrite lookup_union.
      destruct (spread_headers (headers options) !! k) as [v|]; simpl.
      - by destruct ({[ _ := _ ]} !! k).
      - destruct (decide (k = lit "Content-Type")) as [->|Hk].
        + rewrite bool_decide_eq_true_2 by done.
          by rewrite lookup_singleton_eq.
        + rewrite bool_decide_eq_false_2 by done.
          by rewrite lookup_singleton_ne. }
    subst token. destruct (truthy secret) eqn:Hsecret.
    - destruct (decide (k = lit "Authorization")) as [->|Hk].
      + rewrite (bool_decide_eq_true_2 (_ = lit "Authorization")) by done.
        by rewrite lookup_insert_eq.
      + rewrite (bool_decide_eq_false_2 (_ = lit "Authorization")) by done.
        rewrite lookup_insert_ne by done. exact Hbase.
    - rewrite andb_false_r. exact Hbase. }
  assert (Hname : forall i,
    index_key i <> lit "Content-Type" /\ index_key i <> lit "Authorization").
  { intros i. split.
    - apply (index_key_not _ 67%N); [|unfold is_digit; lia].
      apply list_elem_of_here.
    - apply (index_key_not _ 65%N); [|unfold is_digit; lia].
      apply list_elem_of_here. }
  assert (Harray : forall pairs name,
    (forall i, index_key i <> name) ->
    spread_headers (Some (HeadersArray pairs)) !! name = None).
  { intros pairs name Hno.
    destruct (spread_headers _ !! name) as [v|] eqn:Hv; [|done].
    apply spread_array_lookup in Hv as (i & _ & _ & Hi & _).
    by destruct (Hno i). }
  split_and!.
  - exact Hgeneral.
  - by intros members k ->.
  - intros entries k Hh. rewrite Hgeneral, Hh. simpl. rewrite lookup_empty.
    subst token. destruct (truthy secret); [by rewrite andb_true_r|].
    rewrite andb_false_r.
    destruct (decide (k = lit "Authorization")) as [->|Hk].
    + rewrite (bool_decide_eq_true_2 (_ = lit "Authorization")) by done.
      rewrite bool_decide_eq_false_2; [done|].
      intros Heq. vm_compute in Heq. discriminate Heq.
    + by rewrite (bool_decide_eq_false_2 (_ = lit "Authorization")).
  - intros pairs Hh. split_and!.
    + rewrite Hgeneral, Hh.
      rewrite (bool_decide_eq_false_2 (_ = lit "Authorization"))
        by (intros Heq; vm_compute in Heq; discriminate Heq).
      rewrite andb_false_l.
      rewrite Harray by (intros i; apply Hname).
      by rewrite bool_decide_eq_true_2.
    + rewrite Hgeneral, Hh.
      rewrite (bool_decide_eq_true_2 (_ = lit "Authorization")) by done.
      subst token. destruct (truthy secret); [done|]. rewrite andb_false_r.
      rewrite Harray by (intros i; apply Hname).
      rewrite bool_decide_eq_false_2; [done|].
      intros Heq. vm_compute in Heq. discriminate Heq.
    + intros i pair Hi. rewrite Hgeneral, Hh.
      rewrite (bool_decide_eq_false_2 (_ = lit "Authorization"))
        by apply Hname.
      rewrite andb_false_l.
      assert (spread_headers (Some (HeadersArray pairs)) !! index_key i
              = Some (HeaderPair pair)) as ->; [|done].
      apply spread_array_lookup. eauto.
    + intros k v Hk Hct Hauth. rewrite Hgeneral, Hh in Hk.
      rewrite (bool_decide_eq_false_2 (_ = lit "Authorization")) in Hk
        by done.
      rewrite andb_false_l in Hk.
      destruct (spread_headers (Some (HeadersArray pairs)) !! k)
        as [v'|] eqn:Hv.
      * injection Hk as ->. by apply spread_array_lookup.
      * by rewrite bool_decide_eq_false_2 in Hk.
Qed.

End ShapeFacts.

(** ** The two getters *)

Section GetterFacts.
Context `{Defaults}.

Lemma getApiUrl_cached (which : Getter) (env : Env) (st : State)
    (cached : str) :
  cached_of which st = Some cached -> getApiUrl which env st = (cached, st).
Proof.
  destruct which; simpl; intros Hc.
  - unfold getManageApiUrl. by rewrite Hc.
  - unfold getRunApiUrl. by rewrite Hc.
Qed.

Lemma getApiUrl_fresh (which : Getter) (env : Env) (st : State) :
  cached_of which st = None ->
  exists st1,
    getApiUrl which env st = (resolve which env, st1)
    /\ cached_of which st1 = Some (resolve which env)
    /\ warned_of which st1
       = warned_of which st || negb (truthy (env !! variable_of which))
    /\ warnings st1
       = warnings st
         ++ (if negb (truthy (env !! variable_of which))
                && negb (warned_of which st)
             then [warning_of which] else [])
    /\ (forall other, other <> which ->
          cached_of other st1 = cached_of other st
          /\ warned_of other st1 = warned_of other st).
Proof.
  destruct which; simpl; intros Hc;
    unfold getManageApiUrl, getRunApiUrl, resolve; simpl; rewrite Hc;
    destruct (truthy _); simpl.
  - eexists; split_and!; try done.
    + by rewrite orb_false_r.
    + by rewrite app_nil_r.
    + by intros [] ?.
  - destruct (hasWarnedManageApi st) eqn:Hw; simpl;
      eexists; split_and!; try done.
    + by rewrite app_nil_r.
    + by intros [] ?.
    + by intros [] ?.
  - eexists; split_and!; try done.
    + by rewrite orb_false_r.
    + by rewrite app_nil_r.
    + by intros [] ?.
  - destruct (hasWarnedRunApi st) eqn:Hw; simpl;
      eexists; split_and!; try done.
    + by rewrite app_nil_r.
    + by intros [] ?.
    + by intros [] ?.
Qed.

Lemma warning_of_inj (w1 w2 : Getter) :
  warning_of w1 = warning_of w2 -> w1 = w2.
Proof.
  destruct w1, w2; try done; intros Heq; vm_compute in Heq; discriminate.
Qed.

Lemma first_call_snoc (which w : Getter) (env : Env)
    (cs : list (Getter * Env)) :
  first_call which (cs ++ [(w, env)])
  = match first_call which cs with
    | Some e => Some e
    | None => if bool_decide (w = which) then Some env else None
    end.
Proof.
  unfold first_call. induction cs as [|[w' e'] cs IH]; simpl.
  - by case_bool_decide.
  - destruct (bool_decide (w' = which)); simpl; [done|]. apply IH.
Qed.

Lemma first_call_None (which : Getter) (cs : list (Getter * Env)) :
  first_call which cs = None -> forall c, c ∈ cs -> c.1 <> which.
Proof.
  unfold first_call. induction cs as [|c' cs IH]; simpl.
  - intros _ c Hin. by apply elem_of_nil in Hin.
  - destruct (decide (c'.1 = which)) as [Hc|Hc].
    + by rewrite bool_decide_eq_true_2.
    + rewrite bool_decide_eq_false_2 by done.
      intros Hnone c [->|Hin]%elem_of_cons; [done|]. by apply IH.
Qed.

Lemma interleaved_snoc (cs : list (Getter * Env)) (w : Getter) (env : Env)
    (st : State) :
  interleaved (cs ++ [(w, env)]) st
  = let '(returned, st1) := interleaved cs st in
    let '(last, st2) := getApiUrl w env st1 in
    (returned ++ [last], st2).
Proof.
  revert st. induction cs as [|[w' e'] cs IH]; intros st; simpl.
  - by destruct (getApiUrl w env st).
  - destruct (getApiUrl w' e' st) as [r st1]. rewrite IH.
    destruct (interleaved cs st1) as [rs st2].
    by destruct (getApiUrl w env st2).
Qed.

Lemma interleaved_invariant (cs : list (Getter * Env)) :
  let after := interleaved cs initial in
  length after.1 = length cs
  /\ (forall which,
        cached_of which after.2 = resolve which <$> first_call which cs
        /\ (forall i c, cs !! i = Some c -> c.1 = which ->
                        after.1 !! i = cached_of which after.2)
        /\ (warned_of which after.2 = true
            <-> exists env, first_call which cs = Some env
                            /\ truthy (env !! variable_of which) = false))
  /\ (forall w, w ∈ warnings after.2
                <-> exists which, w = warning_of which
                                  /\ warned_of which after.2 = true)
  /\ NoDup (warnings after.2).
Proof.
  induction cs as [|[w env] cs IH] using rev_ind; simpl.
  { split_and!.
    - done.
    - intros which. split_and!.
      + by destruct which.
      + done.
      + split; [by destruct which|]. by intros (? & ? & _).
    - intros w. split.
      + by intros ?%elem_of_nil.
      + intros ([] & _ & ?); done.
    - constructor. }
  rewrite interleaved_snoc.
  destruct (interleaved cs initial) as [rs st]. simpl in IH.
  destruct IH as (Hlen & Hwhich & Hmem & Hnodup).
  destruct (cached_of w st) as [cached|] eqn:Hc.
  - rewrite (getApiUrl_cached w env st cached Hc). simpl.
    assert (Hfirst : exists e, first_call w cs = Some e).
    { destruct (Hwhich w) as (Hcw & _). rewrite Hc in Hcw.
      destruct (first_call w cs); [eauto|done]. }
    split_and!.
    + rewrite !length_app, Hlen. done.
    + intros which. destruct (Hwhich which) as (Hcw & Hret & Hwarn).
      assert (first_call which (cs ++ [(w, env)]) = first_call which cs)
        as Hsame.
      { rewrite first_call_snoc. destruct (first_call which cs) eqn:E;
          [done|]. case_bool_decide as Hw; [|done]. subst which.
        destruct Hfirst as [e He]. congruence. }
      rewrite Hsame. split_and!; [done| |done].
      intros i c Hi Hcwhich.
      apply lookup_app_Some in Hi as [Hi|[Hge Hi]].
      * rewrite lookup_app_l by (rewrite Hlen; by eapply lookup_lt_Some).
        by eapply Hret.
      * rewrite lookup_app_r by lia. rewrite Hlen.
        apply list_lookup_singleton_Some in Hi as [Hi <-].
        simpl in Hcwhich. subst which. by rewrite Hi, Hc.
    + done.
    + done.
  - destruct (getApiUrl_fresh w env st Hc)
      as (st1 & -> & Hc1 & Hw1 & Hwarnings & Hframe). simpl.
    assert (Hfirst : first_call w cs = None).
    { destruct (Hwhich w) as (Hcw & _). rewrite Hc in Hcw.
      by destruct (first_call w cs). }
    assert (Hunwarned : warned_of w st = false).
    { destruct (Hwhich w) as (_ & _ & Hwarn).
      destruct (warned_of w st); [|done].
      destruct (proj1 Hwarn eq_refl) as (e & He & _). congruence. }
    rewrite Hunwarned in Hw1, Hwarnings. simpl in Hw1.
    rewrite andb_true_r in Hwarnings.
    split_and!.
    + rewrite !length_app, Hlen. done.
    + intros which. destruct (Hwhich which) as (Hcw & Hret & Hwarn).
      rewrite first_call_snoc.
      destruct (decide (which = w)) as [->|Hne].
      * rewrite Hfirst, bool_decide_eq_true_2 by done. simpl.
        split_and!; [done| |].
        -- intros i c Hi Hcwhich.
           apply lookup_app_Some in Hi as [Hi|[Hge Hi]].
           ++ apply list_elem_of_lookup_2 in Hi.
              by destruct (first_call_None w cs Hfirst c Hi).
           ++ rewrite lookup_app_r by lia. rewrite Hlen.
              apply list_lookup_singleton_Some in Hi as [Hi <-].
              by rewrite Hi, Hc1.
        -- rewrite Hw1, negb_true_iff. split.
           ++ intros Hunset. eauto.
           ++ by intros (e & [= <-] & Hunset).
      * destruct (Hframe which Hne) as [Hcf Hwf]. rewrite Hcf, Hwf.
        assert (bool_decide (w = which) = false) as ->
          by (apply bool_decide_eq_false; congruence).
        split_and!.
        -- rewrite Hcw. by destruct (first_call which cs).
        -- intros i c Hi Hcwhich.
           apply lookup_app_Some in Hi as [Hi|[Hge Hi]].
           ++ rewrite lookup_app_l
                by (rewrite Hlen; by eapply lookup_lt_Some).
              by eapply Hret.
           ++ apply list_lookup_singleton_Some in Hi as [Hi <-].
              simpl in Hcwhich. congruence.
        -- rewrite Hwarn. by destruct (first_call which cs).
    + intros w'. rewrite Hwarnings, elem_of_app, Hmem. split.
      * intros [(which & -> & Hwarned)|Hnew].
        -- exists which. split; [done|].
           destruct (decide (which = w)) as [->|Hne]; [congruence|].
           by rewrite (proj2 (Hframe which Hne)).
        -- destruct (truthy (env !! variable_of w)) eqn:Ht; simpl in Hnew.
           ++ by apply elem_of_nil in Hnew.
           ++ apply list_elem_of_singleton in Hnew as ->.
              exists w. by rewrite Hw1.
      * intros (which & -> & Hwarned).
        destruct (decide (which = w)) as [->|Hne].
        -- right. rewrite Hw1 in Hwarned.
           apply negb_true_iff in Hwarned. rewrite Hwarned. simpl.
           by apply list_elem_of_singleton.
        -- left. exists which. split; [done|].
           by rewrite <- (proj2 (Hframe which Hne)).
    + rewrite Hwarnings. destruct (negb _); simpl.
      * apply NoDup_app. split_and!; [done| |apply NoDup_singleton].
        intros w' Hin ->%list_elem_of_singleton.
        apply Hmem in Hin as (which & ->%warning_of_inj & Hwarned).
        congruence.
      * by rewrite app_nil_r.
Qed.

(** X17. Any sequence of calls of the two getters, in any order and each
    under the environment of its time, from the state of the module when
    it has just been loaded. A getter's URL is resolved by its first call,
    from the environment of that call, and every call of that getter, the
    first and the later ones, returns that URL whatever the environment has
    become. Its fallback warning is written exactly when its variable was
    not set at its first call; no warning is written twice, so at most two
    are written. *)
Theorem interleaved_calls (cs : list (Getter * Env)) (which : Getter) :
  let after := interleaved cs initial in
  cached_of which after.2 = resolve which <$> first_call which cs
  /\ (forall i c, cs !! i = Some c -> c.1 = which ->
                  after.1 !! i = resolve which <$> first_call which cs)
  /\ (warning_of which ∈ warnings after.2
      <-> exists env, first_call which cs = Some env
                      /\ truthy (env !! variable_of which) = false)
  /\ NoDup (warnings after.2)
  /\ length (warnings after.2) <= 2.
Proof.
  intros after. subst after.
  destruct (interleaved_invariant cs) as (_ & Hwhich & Hmem & Hnodup).
  destruct (Hwhich which) as (Hc & Hret & Hwarn).
  split_and!.
  - done.
  - intros i c Hi Hcw. rewrite <- Hc. by eapply Hret.
  - rewrite Hmem, <- Hwarn. split.
    + by intros (which' & <-%warning_of_inj & Hw).
    + intros Hw. eauto.
  - done.
  - change 2 with (length [warning_of ManageApiUrl; warning_of RunApiUrl]).
    apply submseteq_length, NoDup_submseteq; [done|].
    intros w (which' & -> & _)%Hmem.
    destruct which';
      [apply list_elem_of_here
      |apply list_elem_of_further, list_elem_of_here].
Qed.

(** X18. The two getters do not disturb each other, in any state: called
    one after the other in either order they return the same URLs and
    leave the same module variables and flags, and the same warnings up to
    their order. *)
Theorem getters_commute (env1 env2 : Env) (st : State) :
  let manage_first := getManageApiUrl env1 st in
  let run_second := getRunApiUrl env2 manage_first.2 in
  let run_first := getRunApiUrl env2 st in
  let manage_second := getManageApiUrl env1 run_first.2 in
  manage_first.1 = manage_second.1
  /\ run_first.1 = run_second.1
  /\ INKEEP_AGENTS_MANAGE_API_URL run_second.2
     = INKEEP_AGENTS_MANAGE_API_URL manage_second.2
  /\ INKEEP_AGENTS_RUN_API_URL run_second.2
     = INKEEP_AGENTS_RUN_API_URL manage_second.2
  /\ hasWarnedManageApi run_second.2 = hasWarnedManageApi manage_second.2
  /\ hasWarnedRunApi run_second.2 = hasWarnedRunApi manage_second.2
  /\ warnings run_second.2 ≡ₚ warnings manage_second.2.
Proof.
  simpl. unfold getManageApiUrl, getRunApiUrl.
  destruct (INKEEP_AGENTS_MANAGE_API_URL st) eqn:Hm,
    (INKEEP_AGENTS_RUN_API_URL st) eqn:Hr; simpl;
    destruct (truthy (env1 !! lit "INKEEP_AGENTS_MANAGE_API_URL")),
      (truthy (env2 !! lit "INKEEP_AGENTS_RUN_API_URL")),
      (hasWarnedManageApi st) eqn:Hwm, (hasWarnedRunApi st) eqn:Hwr;
    simpl; rewrite ?Hm, ?Hr, ?Hwm, ?Hwr; simpl; split_and!; try done.
  rewrite <- !app_assoc. apply Permutation_app_head. apply perm_swap.
Qed.

End GetterFacts.

End ApiMore.
